(** * AdressBookBot_via_Classes: a shallow embedding of [main.py]

    The console address book of [main.py] is embedded as Rocq functions:
    the [str] methods the program calls, the [Field]/[Name]/[Phone]/[Record]
    classes, the [AddressBook] dictionary, the command handlers with the
    [error_handler] decorator, [command_parser] and the loop of [main].

    Modelling conventions.
    - A Python [str] is a [string]; a character is a code point below 256
      (the Latin-1 block of Unicode), on which [isspace], [isnumeric] and
      [lower] are the tables of CPython.
    - The [AddressBook] (a [UserDict]) is an association list in insertion
      order, with the update rules of a Python [dict].
    - The module-level [ADDRESSBOOK], the console input and the console
      output are the three fields of a [World], threaded through a small
      state-and-exception monad. *)

From Stdlib Require Import String Ascii List Bool Arith NArith Lia.
Import ListNotations.
Local Open Scope list_scope.
Local Open Scope string_scope.

(** ** Python's [str] methods *)

Module PyStr.

(** [str.isspace] on one character: TAB..CR, FS..US, SPACE, NEL, NBSP. *)
Definition isspace (c : ascii) : bool :=
  let n := N_of_ascii c in
  (((9 <=? n) && (n <=? 13)) || ((28 <=? n) && (n <=? 32))
   || (n =? 133) || (n =? 160))%N.

(** [str.isnumeric] on one character: 0..9, superscripts 2, 3, 1 and the
    vulgar fractions 1/4, 1/2, 3/4. *)
Definition isnumeric_char (c : ascii) : bool :=
  let n := N_of_ascii c in
  (((48 <=? n) && (n <=? 57)) || (n =? 178) || (n =? 179) || (n =? 185)
   || ((188 <=? n) && (n <=? 190)))%N.

(** [s.isnumeric()]: every character is numeric and there is at least one. *)
Fixpoint all_numeric (s : string) : bool :=
  match s with
  | EmptyString => true
  | String c s' => isnumeric_char c && all_numeric s'
  end.

Definition isnumeric (s : string) : bool :=
  match s with
  | EmptyString => false
  | String _ _ => all_numeric s
  end.

(** [str.lower] on one character: A..Z and the accented capitals
    U+00C0..U+00DE (without the multiplication sign U+00D7) move up by 32. *)
Definition lower_char (c : ascii) : ascii :=
  let n := N_of_ascii c in
  if (((65 <=? n) && (n <=? 90))
      || ((192 <=? n) && (n <=? 222) && negb (n =? 215)))%N
  then ascii_of_N (n + 32) else c.

Fixpoint lower (s : string) : string :=
  match s with
  | EmptyString => EmptyString
  | String c s' => String (lower_char c) (lower s')
  end.

(** [s.startswith(p)]. *)
Fixpoint startswith (s p : string) {struct p} : bool :=
  match p with
  | EmptyString => true
  | String a p' =>
      match s with
      | EmptyString => false
      | String b s' => Ascii.eqb a b && startswith s' p'
      end
  end.

(** [p in s]: [p] occurs in [s] as a substring. *)
Fixpoint contains (s p : string) : bool :=
  startswith s p ||
  match s with
  | EmptyString => false
  | String _ s' => contains s' p
  end.

(** [s.lstrip()], [s.rstrip()] and [s.strip()]. *)
Fixpoint lstrip (s : string) : string :=
  match s with
  | EmptyString => EmptyString
  | String c s' => if isspace c then lstrip s' else s
  end.

Fixpoint rstrip (s : string) : string :=
  match s with
  | EmptyString => EmptyString
  | String c s' =>
      match rstrip s' with
      | EmptyString => if isspace c then EmptyString else String c EmptyString
      | r => String c r
      end
  end.

Definition strip (s : string) : string := rstrip (lstrip s).

(** [s.replace(old, new)]: the occurrences of [old] are found from the left
    and do not overlap.  [skip] counts the characters of a matched
    occurrence still to be passed over. *)
Fixpoint replace_from (old new : string) (skip : nat) (s : string) : string :=
  match s with
  | EmptyString => EmptyString
  | String c s' =>
      match skip with
      | S k => replace_from old new k s'
      | O =>
          if startswith s old
          then new ++ replace_from old new (pred (String.length old)) s'
          else String c (replace_from old new 0 s')
      end
  end.

(** With an empty [old], Python puts [new] before every character and at
    the end. *)
Fixpoint interleave (new s : string) : string :=
  match s with
  | EmptyString => new
  | String c s' => new ++ String c (interleave new s')
  end.

Definition replace (s old new : string) : string :=
  match old with
  | EmptyString => interleave new s
  | String _ _ => replace_from old new 0 s
  end.

(** [s.split(sep)] for a separator of one character: every occurrence
    cuts, so the result is never empty and may hold empty strings. *)
Fixpoint split (s : string) (sep : ascii) : list string :=
  match s with
  | EmptyString => [EmptyString]
  | String c s' =>
      if Ascii.eqb c sep then EmptyString :: split s' sep
      else match split s' sep with
           | h :: t => String c h :: t
           | [] => [String c EmptyString]
           end
  end.

(** [sep.join(l)]. *)
Fixpoint join (sep : string) (l : list string) : string :=
  match l with
  | [] => EmptyString
  | [x] => x
  | x :: l' => x ++ sep ++ join sep l'
  end.

(** [s.split()] without a separator: the maximal runs of characters that
    are not whitespace.  The program never calls it; it is what
    "whitespace-split" means. *)
Fixpoint split_whitespace_from (cur : string) (s : string) : list string :=
  match s with
  | EmptyString =>
      match cur with EmptyString => [] | _ => [cur] end
  | String c s' =>
      if isspace c
      then match cur with
           | EmptyString => split_whitespace_from EmptyString s'
           | _ => cur :: split_whitespace_from EmptyString s'
           end
      else split_whitespace_from (cur ++ String c EmptyString) s'
  end.

Definition split_whitespace (s : string) : list string :=
  split_whitespace_from EmptyString s.

End PyStr.
Import PyStr.

Definition nl : string := String (ascii_of_nat 10) EmptyString.
Definition tab : string := String (ascii_of_nat 9) EmptyString.
Definition dquote : string := String (ascii_of_nat 34) EmptyString.

(** ** The field classes *)

Module Phone.

(** [Phone.sanitize_number]. *)
Definition sanitize_number (number : string) : string :=
  let clean_phone :=
    replace (replace (replace (replace (strip number) "-" "") "(" "") ")" "") "+" "" in
  clean_phone.

(** [Phone(phone).value]: the constructor stores the sanitized number. *)
Definition init (phone : string) : string :=
  let clean_number := sanitize_number phone in
  clean_number.

End Phone.

(** [Name(value).value]: the name is stored as it is. *)
Module Name.

Definition init (value : string) : string := value.

End Name.

(** ** Record *)

Module Record.

(** A [Record] object: the value of its [Name], the [Phone] given to the
    constructor (or [None]) and the list [phones].  A [Field] is
    represented by its [value], which is also what [repr], [str] and an
    f-string give for it. *)
Record t : Type := mk {
  name : string;
  phone : option string;
  phones : list string
}.

(** [Record(name, phone)]; an object is true, so [if phone:] asks only
    whether a phone was given. *)
Definition init (name : string) (phone : option string) : t :=
  {| name := name;
     phone := phone;
     phones := match phone with
               | Some p => [p]
               | None => []
               end |}.

Definition set_phones (self : t) (l : list string) : t :=
  {| name := name self; phone := phone self; phones := l |}.

Definition add_phone (self : t) (phone : string) : t :=
  set_phones self (phones self ++ [phone])%list.

(** [list.remove(x)] on a list that holds [x]: the first occurrence goes. *)
Fixpoint list_remove (l : list string) (x : string) : list string :=
  match l with
  | [] => []
  | y :: l' => if (y =? x)%string then l' else y :: list_remove l' x
  end.

(** [Record.change]: the loop stops at the first phone whose value is
    [old_p]; the result is the updated record and the value returned
    ([None] after a replacement, the message otherwise). *)
Definition change (self : t) (old_p new_p : string) : t * option string :=
  match find (fun phone => (phone =? old_p)%string) (phones self) with
  | Some phone =>
      (set_phones self (list_remove (phones self) phone ++ [Phone.init new_p])%list,
       None)
  | None =>
      (self, Some ("Phone " ++ old_p ++ " was not found in your records"))
  end.

(** The line [f"{rec.name} : {','.join([str(p) for p in rec.phones])}"]. *)
Definition render (rec : t) : string :=
  name rec ++ " : " ++ join "," (phones rec).

End Record.

(** ** AddressBook *)

Module AddressBook.

(** The dictionary [data], in insertion order. *)
Definition t : Type := list (string * Record.t).

(** [data.get(key)]. *)
Fixpoint get (self : t) (key : string) : option Record.t :=
  match self with
  | [] => None
  | (k, v) :: self' => if (k =? key)%string then Some v else get self' key
  end.

(** [data[key] = value]: an existing key keeps its place, a new key goes
    to the end. *)
Fixpoint setitem (self : t) (key : string) (value : Record.t) : t :=
  match self with
  | [] => [(key, value)]
  | (k, v) :: self' =>
      if (k =? key)%string then (k, value) :: self'
      else (k, v) :: setitem self' key value
  end.

(** [data.pop(key, None)]. *)
Fixpoint pop (self : t) (key : string) : t :=
  match self with
  | [] => []
  | (k, v) :: self' =>
      if (k =? key)%string then pop self' key else (k, v) :: pop self' key
  end.

Definition add_record (self : t) (record : Record.t) : t :=
  setitem self (Record.name record) record.

Definition remove_record (self : t) (record : Record.t) : t :=
  pop self (Record.name record).

Definition show_one_record (self : t) (name : string) : string :=
  match get self name with
  | Some rec => Record.render rec
  | None => "There is no contact with the name " ++ name
  end.

Definition show_all_records (self : t) : string :=
  match self with
  | _ :: _ => join nl (map (fun kv => Record.render (snd kv)) self)
  | [] => "Your address book is empty"
  end.

(** [change_record]: the record found under [username] is changed in
    place; what [Record.change] returns is dropped, and the method itself
    returns nothing. *)
Definition change_record (self : t) (username old_n new_n : string) : t :=
  match get self username with
  | Some record => setitem self username (fst (Record.change record old_n new_n))
  | None => self
  end.

End AddressBook.

(** ** The interpreter state *)

Inductive exn : Type :=
| IndexError | ValueError | KeyError | AttributeError | EOFError.

Inductive outcome (A : Type) : Type :=
| Return (a : A)
| Raise (e : exn).
Arguments Return {A} a.
Arguments Raise {A} e.

(** The global [ADDRESSBOOK], the lines still to be read from the console
    and what has been written to it. *)
Record World : Type := mkWorld {
  ADDRESSBOOK : AddressBook.t;
  stdin : list string;
  stdout : list string
}.

Definition Py (A : Type) : Type := World -> World * outcome A.

Definition ret {A} (a : A) : Py A := fun w => (w, Return a).

Definition raise {A} (e : exn) : Py A := fun w => (w, Raise e).

Definition bind {A B} (m : Py A) (k : A -> Py B) : Py B :=
  fun w =>
    match m w with
    | (w', Return a) => k a w'
    | (w', Raise e) => (w', Raise e)
    end.

Declare Scope py_scope.
Delimit Scope py_scope with py.
Notation "x <- m ;; k" := (bind m (fun x => k))
  (at level 61, m at next level, right associativity) : py_scope.
Notation "m ;; k" := (bind m (fun _ => k))
  (at level 61, right associativity) : py_scope.
Local Open Scope py_scope.

Definition get_book : Py AddressBook.t :=
  fun w => (w, Return (ADDRESSBOOK w)).

Definition put_book (b : AddressBook.t) : Py unit :=
  fun w => ({| ADDRESSBOOK := b; stdin := stdin w; stdout := stdout w |},
            Return tt).

Definition write (s : string) (w : World) : World :=
  {| ADDRESSBOOK := ADDRESSBOOK w; stdin := stdin w;
     stdout := (stdout w ++ [s])%list |}.

(** [print(s)]. *)
Definition print (s : string) : Py unit :=
  fun w => (write (s ++ nl) w, Return tt).

(** [input(prompt)]: the prompt is written, one line is read; at the end
    of the input Python raises [EOFError]. *)
Definition input (prompt : string) : Py string :=
  fun w =>
    match stdin w with
    | [] => (write prompt w, Raise EOFError)
    | line :: rest =>
        ({| ADDRESSBOOK := ADDRESSBOOK w; stdin := rest;
            stdout := (stdout w ++ [prompt])%list |}, Return line)
    end.

(** [args[i]]. *)
Definition item (args : list string) (i : nat) : Py string :=
  match nth_error args i with
  | Some a => ret a
  | None => raise IndexError
  end.

(** ** error_handler *)

Definition handler : Type := list string -> Py string.

Definition error_handler (func : handler) : handler :=
  fun args w =>
    match func args w with
    | (w', Raise IndexError) =>
        (w', Return "You didn't provide contact name or phone number")
    | (w', Raise ValueError) =>
        (w', Return "Phone number must include digits only")
    | (w', Raise KeyError) =>
        (w', Return "Username is not in contact list")
    | r => r
    end.

(** ** The command handlers *)

Definition HELP_INSTRUCTIONS : string :=
"This contact bot save your contacts
    Global commands:
      'add' - add new contact. Input username and phone
    Example: add User_name 095-xxx-xx-xx
      'change' - change users old phone to new phone. Input username, old phone and new phone
    Example: change User_name 095-xxx-xx-xx 050-xxx-xx-xx
      'phone' - show contacts of input user. Input username
    Example: phone User_name
      'delete' - removes contact from your address book
    Example: delete User_name
      'show all' - show all contacts
    Example: show all
      'exit/'.'/'bye'/'close' - exit bot
    Example: exit".

Definition ASK_REWRITE : string :=
  "Contact with this name already exist, do you want to rewrite it or create new record? '1'/'2'"
  ++ nl.

(** The [while True] loop of [add].  Every round reads one line, so the
    loop is written by recursion on the lines still to be read ([lines] is
    [stdin] at the entry of the loop); with no line left, [input] raises
    [EOFError].  [rec] is the record object found under [name] ([None]
    when there is none): [remove_record(None)] fails on [record.name] with
    an [AttributeError]. *)
Fixpoint add_loop (lines : list string) (name : string) (rec : option Record.t)
  : Py (string * option Record.t) :=
  match lines with
  | [] => input ASK_REWRITE ;; raise EOFError
  | _ :: lines' =>
      user_input <- input ASK_REWRITE ;;
      if (user_input =? "2")%string then
        let name := name ++ "(1)" in
        book <- get_book ;;
        ret (name, AddressBook.get book name)
      else if (user_input =? "1")%string then
        match rec with
        | Some r =>
            book <- get_book ;;
            put_book (AddressBook.remove_record book r) ;;
            book <- get_book ;;
            ret (name, AddressBook.get book name)
        | None => raise AttributeError
        end
      else
        print "Please type '1' or '2' to continue" ;;
        add_loop lines' name rec
  end.

(** [add] before decoration.  At [if rec:] the object [rec] is the one
    stored under [name], so [rec.add_phone(phone)] updates that entry of
    the dictionary in place. *)
Definition add_func (args : list string) : Py string :=
  a0 <- item args 0 ;;
  let name := Name.init a0 in
  a1 <- item args 1 ;;
  let phone := Phone.init a1 in
  book <- get_book ;;
  let rec := AddressBook.get book name in
  nr <- (if contains (AddressBook.show_all_records book) name
         then (fun w => add_loop (stdin w) name rec w)
         else ret (name, rec)) ;;
  let name := fst nr in
  let rec := snd nr in
  if negb (isnumeric phone) then raise ValueError
  else
    book <- get_book ;;
    match rec with
    | Some r =>
        put_book (AddressBook.setitem book name (Record.add_phone r phone))
    | None =>
        put_book (AddressBook.add_record book (Record.init name (Some phone)))
    end ;;
    ret ("You just added contact " ++ dquote ++ name ++ dquote
         ++ " with phone " ++ dquote ++ phone ++ dquote
         ++ " to your list of contacts").

Definition hello_func (args : list string) : Py string :=
  ret "How can I help you?".

Definition show_all_func (args : list string) : Py string :=
  book <- get_book ;;
  ret (AddressBook.show_all_records book).

Definition change_func (args : list string) : Py string :=
  a0 <- item args 0 ;;
  let name := Name.init a0 in
  old_ph <- item args 1 ;;
  new_ph <- item args 2 ;;
  if negb (isnumeric new_ph) then raise ValueError
  else
    book <- get_book ;;
    put_book (AddressBook.change_record book name old_ph new_ph) ;;
    ret ("You just changed number for contact '" ++ name
         ++ "'. New number is '" ++ new_ph ++ "'").

Definition phone_func (args : list string) : Py string :=
  a0 <- item args 0 ;;
  book <- get_book ;;
  ret (AddressBook.show_one_record book a0).

Definition helper_func (args : list string) : Py string :=
  ret HELP_INSTRUCTIONS.

Definition delete_contact_func (args : list string) : Py string :=
  a0 <- item args 0 ;;
  let name := Name.init a0 in
  let rec := Record.init name None in
  match name with
  | String _ _ =>
      book <- get_book ;;
      put_book (AddressBook.remove_record book rec) ;;
      ret (name ++ " was deleted from your contact list")
  | EmptyString => raise IndexError
  end.

(** The decorated handlers, as the module binds their names. *)
Definition add : handler := error_handler add_func.
Definition hello : handler := error_handler hello_func.
Definition show_all : handler := error_handler show_all_func.
Definition change : handler := error_handler change_func.
Definition phone : handler := error_handler phone_func.
Definition helper : handler := error_handler helper_func.
Definition delete_contact : handler := error_handler delete_contact_func.

(** ** command_parser and main *)

(** The dictionary [COMMANDS], in the order of [COMMANDS.items()]. *)
Definition COMMANDS : list (handler * string) :=
  [ (add, "add"); (hello, "hello"); (show_all, "show all");
    (change, "change"); (phone, "phone"); (helper, "help");
    (delete_contact, "delete") ].

Fixpoint command_parser_items (items : list (handler * string))
  (user_input : string) : option (handler * list string) :=
  match items with
  | [] => None
  | (command, key_word) :: items' =>
      if startswith user_input key_word
      then Some (command,
                 split (strip (replace user_input key_word "")) " ")
      else command_parser_items items' user_input
  end.

(** [command_parser]; the pair [(None, None)] is [None]. *)
Definition command_parser (user_input : string)
  : option (handler * list string) :=
  command_parser_items COMMANDS user_input.

Definition end_words : list string := ["."; "close"; "bye"; "exit"].

(** [x in l] for a list of strings. *)
Definition mem (x : string) (l : list string) : bool :=
  existsb (fun y => (y =? x)%string) l.

Inductive status : Type := Running | Terminated.

(** One round of the loop of [main]: [Terminated] is the [break]. *)
Definition main_step : Py status :=
  user_input <- input ">>>" ;;
  if mem (lower user_input) end_words then
    print "Goodbye and good luck" ;;
    ret Terminated
  else
    match command_parser (lower user_input) with
    | None =>
        print "Sorry, unknown command" ;;
        ret Running
    | Some (command, data) =>
        r <- command data ;;
        print r ;;
        ret Running
    end.

(** The loop of [main]; [None] when [fuel] rounds were not enough. *)
Fixpoint main_loop (fuel : nat) (w : World) : option (World * outcome unit) :=
  match fuel with
  | O => None
  | S fuel' =>
      match main_step w with
      | (w', Return Terminated) => Some (w', Return tt)
      | (w', Return Running) => main_loop fuel' w'
      | (w', Raise e) => Some (w', Raise e)
      end
  end.

Definition BANNER : string :=
  "Here's a list of available commands: 'Hello', 'Add', 'Change', 'Phone', 'Show all', 'Delete', 'Help', 'Exit'".

Definition main (fuel : nat) (w : World) : option (World * outcome unit) :=
  main_loop fuel (fst (print BANNER w)).

(** The state in which the program starts, with the given console input. *)
Definition initial (lines : list string) : World :=
  {| ADDRESSBOOK := []; stdin := lines; stdout := [] |}.

(** ** Notions used in the statements *)

(** The string without the character [c]. *)
Fixpoint remove_char (c : ascii) (s : string) : string :=
  match s with
  | EmptyString => EmptyString
  | String a s' =>
      if Ascii.eqb c a then remove_char c s' else String a (remove_char c s')
  end.

(** The character [c] occurs in [s]. *)
Fixpoint occurs (c : ascii) (s : string) : bool :=
  match s with
  | EmptyString => false
  | String a s' => Ascii.eqb c a || occurs c s'
  end.

(** Every key of the book is the name of the record stored under it. *)
Definition keys_match (b : AddressBook.t) : Prop :=
  Forall (fun kv => Record.name (snd kv) = fst kv) b.

(** The invariant of the address book: the association list is a
    dictionary (no key twice) and every key is the name of its record. *)
Definition book_inv (b : AddressBook.t) : Prop :=
  NoDup (map fst b) /\ keys_match b.

(** The books the program can build: it starts from the empty book, and
    only the handlers change it, whatever their arguments and whatever is
    typed at the console. *)
Inductive reachable : AddressBook.t -> Prop :=
| reachable_empty : reachable []
| reachable_call (command : handler) (args : list string) (w : World) :
    In command (map fst COMMANDS) ->
    reachable (ADDRESSBOOK w) ->
    reachable (ADDRESSBOOK (fst (command args w))).

(** The words of the specification for the parser: the keywords are tried
    in the order of [COMMANDS], the first one that is a prefix of the line
    is taken off its front, and the remainder is split at whitespace. *)
Fixpoint drop (n : nat) (s : string) : string :=
  match n, s with
  | S n', String _ s' => drop n' s'
  | _, _ => s
  end.

Fixpoint command_parser_spec_items (items : list (handler * string))
  (line : string) : option (handler * list string) :=
  match items with
  | [] => None
  | (command, key_word) :: items' =>
      if startswith line key_word
      then Some (command, split_whitespace (drop (String.length key_word) line))
      else command_parser_spec_items items' line
  end.

Definition command_parser_spec (line : string)
  : option (handler * list string) :=
  command_parser_spec_items COMMANDS line.

(** The words of the specification for the exit test: the line, trimmed
    and without regard to case, is one of the exit tokens. *)
Definition exit_token_spec (line : string) : bool :=
  mem (lower (strip line)) end_words.

(** The string is empty or starts with a character that is not
    whitespace: what [lstrip] leaves. *)
Definition starts_clean (s : string) : bool :=
  match s with
  | EmptyString => true
  | String c _ => negb (isspace c)
  end.

(** What the handlers keep true of a stored record: it holds at least one
    phone and every phone passes [isnumeric]. *)
Definition phones_ok (r : Record.t) : Prop :=
  Record.phones r <> [] /\ Forall (fun p => isnumeric p = true) (Record.phones r).

(** The states the console session goes through: the program starts with
    the empty book and some input, and goes on by rounds of the loop of
    [main]. *)
Inductive session_state : World -> Prop :=
| session_start (lines : list string) : session_state (initial lines)
| session_round (w : World) :
    session_state w -> session_state (fst (main_step w)).





(** * Properties *)

(** ** Strings *)

Section StringFacts.

Lemma append_nil_r (s : string) : s ++ "" = s.
Proof. induction s as [|c s IH]; simpl; [reflexivity | now rewrite IH]. Qed.

Lemma append_assoc (a b c : string) : (a ++ b) ++ c = a ++ (b ++ c).
Proof. induction a as [|x a IH]; simpl; [reflexivity | now rewrite IH]. Qed.

Lemma startswith_append (p rest : string) : startswith (p ++ rest) p = true.
Proof.
  induction p as [|c p IH]; simpl; [reflexivity|].
  now rewrite Ascii.eqb_refl, IH.
Qed.

Lemma startswith_inv (s p : string) :
  startswith s p = true -> exists rest, s = p ++ rest.
Proof.
  revert s; induction p as [|c p IH]; intros s H; simpl in *.
  - now exists s.
  - destruct s as [|b s]; [discriminate|].
    apply andb_true_iff in H as [Hc Hp].
    apply Ascii.eqb_eq in Hc. subst b.
    destruct (IH _ Hp) as [rest ->]. now exists rest.
Qed.

Lemma contains_nil (s : string) : contains s "" = true.
Proof. destruct s; reflexivity. Qed.

Lemma contains_startswith (s p : string) :
  startswith s p = true -> contains s p = true.
Proof. destruct s; simpl; intros ->; reflexivity. Qed.

Lemma contains_middle (a p b : string) : contains (a ++ p ++ b) p = true.
Proof.
  induction a as [|c a IH].
  - change (contains (p ++ b) p = true).
    apply contains_startswith, startswith_append.
  - change (contains (String c (a ++ p ++ b)) p = true).
    cbn [contains]. rewrite IH. apply orb_true_r.
Qed.

Lemma contains_false_startswith (s p : string) :
  contains s p = false -> startswith s p = false.
Proof.
  destruct s; simpl; intros H; apply orb_false_iff in H; tauto.
Qed.

(** One round of [replace]: at an occurrence the text resumes behind it. *)
Lemma replace_from_skip (old new p rest : string) :
  replace_from old new (String.length p) (p ++ rest)
  = replace_from old new 0 rest.
Proof.
  induction p as [|c p IH]; simpl.
  - destruct rest; reflexivity.
  - exact IH.
Qed.

Lemma replace_from_occurrence (old new rest : string) c :
  replace_from (String c old) new 0 (String c old ++ rest)
  = new ++ replace_from (String c old) new 0 rest.
Proof.
  change (String c old ++ rest) with (String c (old ++ rest)).
  cbn [replace_from].
  change (String c (old ++ rest)) with (String c old ++ rest).
  rewrite startswith_append.
  cbn [String.length pred].
  now rewrite replace_from_skip.
Qed.

Lemma replace_from_absent (old new s : string) :
  contains s old = false -> old <> "" -> replace_from old new 0 s = s.
Proof.
  intros H Hne. induction s as [|c s IH].
  - reflexivity.
  - cbn [replace_from].
    rewrite (contains_false_startswith _ _ H).
    simpl in H. apply orb_false_iff in H as [_ H].
    now rewrite IH.
Qed.

(** A keyword that opens the line and does not occur again is all that
    [replace] takes away. *)
Lemma replace_prefix_only (key_word rest : string) :
  key_word <> "" ->
  contains rest key_word = false ->
  replace (key_word ++ rest) key_word "" = rest.
Proof.
  intros Hne H. destruct key_word as [|c k]; [congruence|].
  unfold replace. rewrite replace_from_occurrence.
  now rewrite replace_from_absent.
Qed.

(** Removing a one-character [old] is a filter. *)
Lemma replace_char (s : string) (c : ascii) :
  replace s (String c "") "" = remove_char c s.
Proof.
  unfold replace. induction s as [|a s IH]; simpl; [reflexivity|].
  rewrite andb_true_r.
  destruct (Ascii.eqb c a); simpl; now rewrite IH.
Qed.

Lemma occurs_remove_char_same (c : ascii) (s : string) :
  occurs c (remove_char c s) = false.
Proof.
  induction s as [|a s IH]; simpl; [reflexivity|].
  destruct (Ascii.eqb c a) eqn:E; simpl; [assumption|].
  now rewrite E.
Qed.

Lemma occurs_remove_char_other (c d : ascii) (s : string) :
  occurs c s = false -> occurs c (remove_char d s) = false.
Proof.
  induction s as [|a s IH]; simpl; [reflexivity|].
  intros H. apply orb_false_iff in H as [Ha Hs].
  destruct (Ascii.eqb d a); simpl; [auto|].
  rewrite Ha. auto.
Qed.

Lemma remove_char_absent (c : ascii) (s : string) :
  occurs c s = false -> remove_char c s = s.
Proof.
  induction s as [|a s IH]; simpl; [reflexivity|].
  intros H. apply orb_false_iff in H as [Ha Hs].
  rewrite Ha. now rewrite IH.
Qed.

(** A numeric character is neither whitespace nor one of the four
    characters that [sanitize_number] deletes. *)
Lemma isnumeric_char_plain (c : ascii) :
  isnumeric_char c = true ->
  isspace c = false /\ Ascii.eqb "-" c = false /\ Ascii.eqb "(" c = false
  /\ Ascii.eqb ")" c = false /\ Ascii.eqb "+" c = false.
Proof.
  destruct c as [[] [] [] [] [] [] [] []]; vm_compute; intros H;
    first [discriminate H | repeat split].
Qed.

Lemma all_numeric_occurs (s : string) (c : ascii) :
  all_numeric s = true ->
  (forall a, isnumeric_char a = true -> Ascii.eqb c a = false) ->
  occurs c s = false.
Proof.
  intros H Hc. induction s as [|a s IH]; simpl in *; [reflexivity|].
  apply andb_true_iff in H as [Ha Hs].
  rewrite (Hc _ Ha). auto.
Qed.

Lemma all_numeric_lstrip (s : string) : isnumeric s = true -> lstrip s = s.
Proof.
  destruct s as [|c s]; simpl; [discriminate|].
  intros H. apply andb_true_iff in H as [Hc _].
  now destruct (isnumeric_char_plain _ Hc) as [-> _].
Qed.

Lemma all_numeric_rstrip (s : string) : all_numeric s = true -> rstrip s = s.
Proof.
  induction s as [|c s IH]; simpl; [reflexivity|].
  intros H. apply andb_true_iff in H as [Hc Hs].
  rewrite (IH Hs).
  destruct (isnumeric_char_plain _ Hc) as [-> _].
  destruct s; reflexivity.
Qed.

Lemma isnumeric_all (s : string) : isnumeric s = true -> all_numeric s = true.
Proof. destruct s; [discriminate | auto]. Qed.

(** A phone that passes the digit test is stored as it is. *)
Lemma sanitize_numeric (s : string) :
  isnumeric s = true -> Phone.sanitize_number s = s.
Proof.
  intros H. pose proof (isnumeric_all _ H) as Ha.
  unfold Phone.sanitize_number, strip.
  rewrite (all_numeric_lstrip _ H), (all_numeric_rstrip _ Ha).
  rewrite !replace_char.
  rewrite (remove_char_absent "-"), (remove_char_absent "("),
    (remove_char_absent ")"), (remove_char_absent "+"); try reflexivity;
    apply all_numeric_occurs; auto; intros a Hn;
    apply (isnumeric_char_plain a Hn).
Qed.

(** None of the four characters is left in a sanitized number. *)
Lemma sanitize_number_deletes (s : string) (c : ascii) :
  In c ["-"; "("; ")"; "+"]%char ->
  occurs c (Phone.sanitize_number s) = false.
Proof.
  unfold Phone.sanitize_number. rewrite !replace_char.
  intros [<-|[<-|[<-|[<-|[]]]]].
  - do 3 apply occurs_remove_char_other. apply occurs_remove_char_same.
  - do 2 apply occurs_remove_char_other. apply occurs_remove_char_same.
  - apply occurs_remove_char_other. apply occurs_remove_char_same.
  - apply occurs_remove_char_same.
Qed.

End StringFacts.

(** ** The dictionary *)

Section BookFacts.

Implicit Types (b : AddressBook.t) (k : string) (r : Record.t).

Lemma get_setitem_same b k r : AddressBook.get (AddressBook.setitem b k r) k = Some r.
Proof.
  induction b as [|[k0 v0] b IH]; simpl.
  - now rewrite String.eqb_refl.
  - destruct (k0 =? k)%string eqn:E; simpl; rewrite E; auto.
Qed.

Lemma get_setitem_other b k k' r :
  k' <> k ->
  AddressBook.get (AddressBook.setitem b k r) k' = AddressBook.get b k'.
Proof.
  intros Hne. induction b as [|[k0 v0] b IH]; simpl.
  - apply String.eqb_neq in Hne. rewrite String.eqb_sym in Hne. now rewrite Hne.
  - destruct (k0 =? k)%string eqn:E; simpl.
    + apply String.eqb_eq in E. subst k0.
      apply String.eqb_neq in Hne. rewrite String.eqb_sym in Hne.
      now rewrite Hne.
    + now rewrite IH.
Qed.

Lemma setitem_get_same b k r :
  AddressBook.get b k = Some r -> AddressBook.setitem b k r = b.
Proof.
  induction b as [|[k0 v0] b IH]; simpl; [discriminate|].
  destruct (k0 =? k)%string eqn:E.
  - now intros [= ->].
  - intros H. now rewrite IH.
Qed.

Lemma get_pop_same b k : AddressBook.get (AddressBook.pop b k) k = None.
Proof.
  induction b as [|[k0 v0] b IH]; simpl; [reflexivity|].
  destruct (k0 =? k)%string eqn:E; simpl; [assumption|].
  now rewrite E.
Qed.

Lemma get_pop_other b k k' :
  k' <> k -> AddressBook.get (AddressBook.pop b k) k' = AddressBook.get b k'.
Proof.
  intros Hne. induction b as [|[k0 v0] b IH]; simpl; [reflexivity|].
  destruct (k0 =? k)%string eqn:E; simpl.
  - apply String.eqb_eq in E. subst k0.
    apply String.eqb_neq in Hne. rewrite String.eqb_sym in Hne.
    now rewrite Hne.
  - now rewrite IH.
Qed.

Lemma pop_absent b k : AddressBook.get b k = None -> AddressBook.pop b k = b.
Proof.
  induction b as [|[k0 v0] b IH]; simpl; [reflexivity|].
  destruct (k0 =? k)%string; [discriminate|].
  intros H. now rewrite IH.
Qed.

Lemma get_In b k r : AddressBook.get b k = Some r -> In (k, r) b.
Proof.
  induction b as [|[k0 v0] b IH]; simpl; [discriminate|].
  destruct (k0 =? k)%string eqn:E.
  - apply String.eqb_eq in E. intros [= ->]. left. now subst.
  - auto.
Qed.

End BookFacts.

(** ** The [change] handler *)

Lemma change_numeric (w : World) (name old_ph new_ph : string) (rest : list string) :
  isnumeric new_ph = true ->
  change (name :: old_ph :: new_ph :: rest) w
  = ({| ADDRESSBOOK := AddressBook.change_record (ADDRESSBOOK w) name old_ph new_ph;
        stdin := stdin w; stdout := stdout w |},
     Return ("You just changed number for contact '" ++ name
             ++ "'. New number is '" ++ new_ph ++ "'")).
Proof.
  intros H. unfold change, error_handler, change_func, bind, item, ret,
    get_book, put_book, Name.init. cbn [nth_error].
  now rewrite H.
Qed.

Lemma find_none_not_in (l : list string) (x : string) :
  find (fun phone => (phone =? x)%string) l = None -> ~ In x l.
Proof.
  induction l as [|y l IH]; simpl; [tauto|].
  destruct (y =? x)%string eqn:E; [discriminate|].
  apply String.eqb_neq in E. intros H [Hy|Hl]; [congruence | now apply IH].
Qed.

(** C1: whenever the new phone passes the digit test, [change] answers
    with the confirmation that names the contact and the new number, for
    every book and every name and old phone; when there is no record for
    the name, or the record holds no phone equal to [old_ph] (so that
    [Record.change] returns its not-found message, which [change_record]
    drops), the book is left as it was and the answer is the same. *)
Theorem change_always_confirms (w : World) (name old_ph new_ph : string) :
  isnumeric new_ph = true ->
  snd (change [name; old_ph; new_ph] w)
  = Return ("You just changed number for contact '" ++ name
            ++ "'. New number is '" ++ new_ph ++ "'")
  /\ (AddressBook.get (ADDRESSBOOK w) name = None ->
      ADDRESSBOOK (fst (change [name; old_ph; new_ph] w)) = ADDRESSBOOK w)
  /\ (forall record,
         AddressBook.get (ADDRESSBOOK w) name = Some record ->
         ~ In old_ph (Record.phones record) ->
         snd (Record.change record old_ph new_ph)
         = Some ("Phone " ++ old_ph ++ " was not found in your records")
         /\ ADDRESSBOOK (fst (change [name; old_ph; new_ph] w)) = ADDRESSBOOK w).
Proof.
  intros H. rewrite (change_numeric w name old_ph new_ph [] H).
  cbn [fst snd ADDRESSBOOK]. split; [reflexivity|]. split.
  - intros Hget. unfold AddressBook.change_record. now rewrite Hget.
  - intros record Hget Hnot.
    assert (Hfind : find (fun phone => (phone =? old_ph)%string)
                      (Record.phones record) = None).
    { destruct (find _ _) as [p|] eqn:E; [|reflexivity].
      apply find_some in E as [Hin Heq]. apply String.eqb_eq in Heq.
      subst p. contradiction. }
    unfold AddressBook.change_record, Record.change.
    rewrite Hget, Hfind. cbn [fst snd]. split; [reflexivity|].
    now apply setitem_get_same.
Qed.

Lemma change_always_confirms_witness :
  snd (change ["bob"; "123"; "456"] (initial []))
  = Return "You just changed number for contact 'bob'. New number is '456'".
Proof.
  exact (proj1 (change_always_confirms (initial []) "bob" "123" "456" eq_refl)).
Defined.






(** ** [Record.change] *)

(** The first phone equal to [x] is what both the scan and [list.remove]
    find. *)
Lemma first_occurrence (l : list string) (x : string) :
  In x l ->
  exists before after,
    l = (before ++ x :: after)%list /\ ~ In x before
    /\ find (fun phone => (phone =? x)%string) l = Some x
    /\ Record.list_remove l x = (before ++ after)%list.
Proof.
  induction l as [|y l IH]; simpl; [tauto|].
  intros Hin. destruct (y =? x)%string eqn:E.
  - apply String.eqb_eq in E. subst y.
    exists [], l. simpl. repeat split; auto.
  - apply String.eqb_neq in E.
    destruct Hin as [Hy|Hl]; [congruence|].
    destruct (IH Hl) as (before & after & -> & Hnot & Hfind & Hrem).
    exists (y :: before), after. simpl. repeat split.
    + intros [Hy|Hb]; [congruence | contradiction].
    + exact Hfind.
    + now rewrite Hrem.
Qed.

Lemma phone_shows (w : World) (name : string) (rest : list string) :
  phone (name :: rest) w
  = (w, Return (AddressBook.show_one_record (ADDRESSBOOK w) name)).
Proof. reflexivity. Qed.

(** C7: on a record that holds a phone whose stored value is
    [old_value], [Record.change] takes the first such entry out of the
    sequence and puts [Phone(new_value)], sanitized again, at its end, and
    returns nothing.  The value put there is [new_value] stripped and
    without its "-", "(", ")" and "+": for Alice holding 1234567890, the
    new value "(999)888-77-76" between spaces is stored as 9998887776.
    Hence, in a book where Alice holds 1234567890 once,
    after [change("Alice", "1234567890", "9998887776")] the line that
    [phone("Alice")] shows is made of the other phones followed by
    9998887776: 1234567890 is no longer in it and 9998887776 is. *)
Theorem record_change_replaces (self : Record.t) (old_value new_value : string) :
  In old_value (Record.phones self) ->
  (exists before after,
      Record.phones self = (before ++ old_value :: after)%list
      /\ ~ In old_value before
      /\ Record.change self old_value new_value
         = (Record.set_phones self
              (before ++ after ++ [Phone.sanitize_number new_value])%list,
            None))
  /\ (forall (w : World) (before after : list string),
         AddressBook.get (ADDRESSBOOK w) "Alice" = Some self ->
         Record.phones self = (before ++ "1234567890" :: after)%list ->
         ~ In "1234567890" (before ++ after)%list ->
         let w' := fst (change ["Alice"; "1234567890"; "9998887776"] w) in
         let shown := (before ++ after ++ ["9998887776"])%list in
         snd (phone ["Alice"] w')
         = Return (Record.name self ++ " : " ++ join "," shown)
         /\ ~ In "1234567890" shown /\ In "9998887776" shown)
  /\ Phone.sanitize_number new_value
     = remove_char "+" (remove_char ")" (remove_char "("
         (remove_char "-" (strip new_value))))
  /\ Record.change (Record.init "Alice" (Some "1234567890"))
       "1234567890" " (999)888-77-76 "
     = ({| Record.name := "Alice"; Record.phone := Some "1234567890";
           Record.phones := ["9998887776"] |}, None).
Proof.
  intros Hin. split; [|split; [|split]];
    [| | unfold Phone.sanitize_number; now rewrite !replace_char
     | reflexivity].
  - destruct (first_occurrence _ _ Hin) as (before & after & Hl & Hnot & Hfind & Hrem).
    exists before, after. repeat split; auto.
    unfold Record.change, Phone.init. rewrite Hfind, Hrem.
    now rewrite <- app_assoc.
  - intros w before after Hget Hl Hnot w' shown.
    assert (Hb : ~ In "1234567890" before)
      by (intros Hb; apply Hnot, in_or_app; now left).
    assert (Hin' : In "1234567890" (Record.phones self))
      by (rewrite Hl; apply in_or_app; right; now left).
    destruct (first_occurrence _ _ Hin') as (b' & a' & Hl' & Hnot' & Hfind & Hrem).
    assert (Hsame : Record.list_remove (Record.phones self) "1234567890"
                    = (before ++ after)%list).
    { rewrite Hl. clear -Hb. induction before as [|y before IH]; simpl.
      - reflexivity.
      - destruct (y =? "1234567890")%string eqn:E.
        + apply String.eqb_eq in E. subst y. exfalso. apply Hb. now left.
        + rewrite IH; [reflexivity|]. intros H. apply Hb. now right. }
    subst w'.
    rewrite (change_numeric w "Alice" "1234567890" "9998887776" [] eq_refl).
    cbn [fst]. rewrite phone_shows. cbn [snd ADDRESSBOOK].
    unfold AddressBook.show_one_record, AddressBook.change_record.
    rewrite Hget, get_setitem_same.
    unfold Record.change. rewrite Hfind, Hsame. cbn [fst].
    unfold Record.render, Record.set_phones. cbn [Record.name Record.phones].
    change (Phone.init "9998887776") with "9998887776".
    rewrite <- app_assoc. fold shown. repeat split.
    + subst shown. intros H. rewrite app_assoc in H.
      apply in_app_or in H as [H|[H|[]]]; [contradiction | discriminate].
    + subst shown. rewrite app_assoc. apply in_or_app. right. now left.
Qed.

Lemma record_change_replaces_witness :
  Record.change (Record.init "Alice" (Some "1234567890"))
    "1234567890" " (999)888-77-76 "
  = ({| Record.name := "Alice"; Record.phone := Some "1234567890";
        Record.phones := ["9998887776"] |}, None).
Proof.
  exact (proj2 (proj2 (proj2 (record_change_replaces
                  (Record.init "Alice" (Some "1234567890"))
                  "1234567890" " (999)888-77-76 " (or_introl eq_refl))))).
Defined.

(** ** [delete_contact] *)

(** C8: with a name that is not empty, [delete_contact] takes the record
    keyed by that name out of the book (the other records stay, and a book
    without the name stays as it is) and answers with the deletion
    confirmation; with the empty name it answers with the missing-argument
    message and the state is unchanged. *)
Theorem delete_contact_removes (w : World) (name : string) :
  name <> "" ->
  (delete_contact [name] w
   = ({| ADDRESSBOOK := AddressBook.pop (ADDRESSBOOK w) name;
         stdin := stdin w; stdout := stdout w |},
      Return (name ++ " was deleted from your contact list"))
   /\ AddressBook.get (AddressBook.pop (ADDRESSBOOK w) name) name = None
   /\ (forall k, k <> name ->
         AddressBook.get (AddressBook.pop (ADDRESSBOOK w) name) k
         = AddressBook.get (ADDRESSBOOK w) k)
   /\ (AddressBook.get (ADDRESSBOOK w) name = None ->
       AddressBook.pop (ADDRESSBOOK w) name = ADDRESSBOOK w))
  /\ delete_contact [""] w
     = (w, Return "You didn't provide contact name or phone number").
Proof.
  intros Hne. split; [|reflexivity]. repeat split.
  - destruct name as [|c name]; [congruence|]. reflexivity.
  - apply get_pop_same.
  - intros k Hk. now apply get_pop_other.
  - apply pop_absent.
Qed.

Lemma delete_contact_removes_witness :
  delete_contact ["Alice"]
    {| ADDRESSBOOK := [("Alice", Record.init "Alice" (Some "1234567890"))];
       stdin := []; stdout := [] |}
  = (initial [], Return "Alice was deleted from your contact list").
Proof.
  refine (proj1 (proj1 (delete_contact_removes
    {| ADDRESSBOOK := [("Alice", Record.init "Alice" (Some "1234567890"))];
       stdin := []; stdout := [] |} "Alice" _))).
  discriminate.
Defined.

(** ** [Phone.sanitize_number] *)

(** C3: the claim asks for a result without surrounding whitespace and for
    idempotence.  [sanitize_number] strips the whitespace before it deletes
    the four characters, so whitespace that stood behind a leading "+" (or
    before a closing character at the end) comes to the front of the
    result: on "+ 380501234567" the result starts with a space, and a
    second pass changes it.  The console can deliver such a phone: a TAB
    does not separate arguments, so the line "add bob +<TAB>380501234567"
    hands "+<TAB>380501234567" to [Phone], whose value then starts with
    the TAB. *)
Theorem sanitize_number_not_idempotent :
  Phone.sanitize_number "+ 380501234567" = " 380501234567"
  /\ Phone.sanitize_number (Phone.sanitize_number "+ 380501234567")
     = "380501234567"
  /\ Phone.sanitize_number (Phone.sanitize_number "+ 380501234567")
     <> Phone.sanitize_number "+ 380501234567"
  /\ strip (Phone.sanitize_number "+ 380501234567")
     <> Phone.sanitize_number "+ 380501234567"
  /\ option_map snd (command_parser ("add bob +" ++ tab ++ "380501234567"))
     = Some ["bob"; "+" ++ tab ++ "380501234567"]
  /\ Phone.sanitize_number ("+" ++ tab ++ "380501234567")
     = tab ++ "380501234567".
Proof. repeat split; try reflexivity; vm_compute; discriminate. Qed.

(** ** [command_parser] *)

Lemma command_parser_items_first (items pre post : list (handler * string))
  (command : handler) (key_word line : string) :
  items = (pre ++ (command, key_word) :: post)%list ->
  Forall (fun ck => startswith line (snd ck) = false) pre ->
  startswith line key_word = true ->
  command_parser_items items line
  = Some (command, split (strip (replace line key_word "")) " ").
Proof.
  intros -> Hpre Hkw. induction Hpre as [|[c k] pre Hk Hpre IH]; simpl.
  - now rewrite Hkw.
  - simpl in Hk. now rewrite Hk.
Qed.

Lemma command_parser_items_none (items : list (handler * string)) (line : string) :
  Forall (fun ck => startswith line (snd ck) = false) items ->
  command_parser_items items line = None.
Proof.
  induction 1 as [|[c k] items Hk Hitems IH]; simpl; [reflexivity|].
  simpl in Hk. now rewrite Hk.
Qed.

Lemma COMMANDS_key_words (command : handler) (key_word : string) :
  In (command, key_word) COMMANDS -> key_word <> "".
Proof.
  unfold COMMANDS. simpl.
  intros H; repeat (destruct H as [[= <- <-]|H]; [discriminate|]);
    contradiction.
Qed.

(** C4, as the code has it: the keywords are tried in the order add,
    hello, show all, change, phone, help, delete, and the first one that
    is a prefix of the line selects the handler.  When that keyword does
    not occur again in the rest of the line, the arguments are the rest
    of the line behind the keyword, stripped of surrounding whitespace and
    cut at every single space character: two spaces in a row give an
    empty argument, and a TAB inside the rest does not separate
    arguments.  The line "show all contacts please" gives the handler of
    "show all" with the arguments "contacts" and "please". *)
Theorem command_parser_first_keyword
  (line key_word rest : string) (command : handler)
  (pre post : list (handler * string)) :
  COMMANDS = (pre ++ (command, key_word) :: post)%list ->
  Forall (fun ck => startswith line (snd ck) = false) pre ->
  line = key_word ++ rest ->
  map snd COMMANDS
  = ["add"; "hello"; "show all"; "change"; "phone"; "help"; "delete"]
  /\ (exists args, command_parser line = Some (command, args))
  /\ (contains rest key_word = false ->
      command_parser line = Some (command, split (strip rest) " "))
  /\ command_parser "show all contacts please"
     = Some (show_all, ["contacts"; "please"])
  /\ command_parser "add bob  123 " = Some (add, ["bob"; ""; "123"])
  /\ command_parser ("phone a" ++ tab ++ "b")
     = Some (phone, ["a" ++ tab ++ "b"]).
Proof.
  intros HC Hpre ->.
  assert (Hparse : command_parser (key_word ++ rest)
     = Some (command,
             split (strip (replace (key_word ++ rest) key_word "")) " ")).
  { unfold command_parser.
    apply (command_parser_items_first _ pre post); auto.
    apply startswith_append. }
  split; [reflexivity|]. split; [eexists; exact Hparse|].
  split; [|repeat split].
  intros Hrest. rewrite Hparse, replace_prefix_only; auto.
  apply (COMMANDS_key_words command). rewrite HC.
  apply in_or_app. right. now left.
Qed.

Lemma command_parser_first_keyword_witness :
  command_parser "change bob 123 456"
  = Some (change, ["bob"; "123"; "456"]).
Proof.
  assert (Hpre : Forall
            (fun ck => startswith "change bob 123 456" (snd ck) = false)
            [(add, "add"); (hello, "hello"); (show_all, "show all")])
    by (repeat constructor).
  destruct (command_parser_first_keyword
    "change bob 123 456" "change" " bob 123 456" change
    [(add, "add"); (hello, "hello"); (show_all, "show all")]
    [(phone, "phone"); (helper, "help"); (delete_contact, "delete")]
    eq_refl Hpre eq_refl) as (_ & _ & H & _).
  exact (H eq_refl).
Defined.

(** Without a keyword at its front the line has no command. *)
Lemma command_parser_unknown (line : string) :
  Forall (fun ck => startswith line (snd ck) = false) COMMANDS ->
  command_parser line = None.
Proof. apply command_parser_items_none. Qed.

(** C4 as stated fails: the remainder is cut at single spaces, not split
    at whitespace.  After "add bob" and two spaces the handler gets an
    empty string as its second argument. *)
Lemma command_parser_not_whitespace_split :
  option_map snd (command_parser "add bob  123") = Some ["bob"; ""; "123"]
  /\ option_map snd (command_parser_spec "add bob  123") = Some ["bob"; "123"]
  /\ option_map snd (command_parser "add bob  123")
     <> option_map snd (command_parser_spec "add bob  123").
Proof. repeat split; try reflexivity. vm_compute. discriminate. Qed.

(** ** The loop of [main] *)

Lemma mem_In (x : string) (l : list string) : mem x l = true <-> In x l.
Proof.
  unfold mem. rewrite existsb_exists. split.
  - intros (y & Hy & E). apply String.eqb_eq in E. now subst.
  - intros H. exists x. split; [assumption | apply String.eqb_refl].
Qed.

(** What one round does with the line it reads. *)
Lemma main_step_line (book : AddressBook.t) (line : string)
  (rest out : list string) :
  main_step {| ADDRESSBOOK := book; stdin := line :: rest; stdout := out |}
  = let w := {| ADDRESSBOOK := book; stdin := rest;
                stdout := (out ++ [">>>"])%list |} in
    if mem (lower line) end_words
    then (write ("Goodbye and good luck" ++ nl) w, Return Terminated)
    else match command_parser (lower line) with
         | None => (write ("Sorry, unknown command" ++ nl) w, Return Running)
         | Some (command, data) =>
             match command data w with
             | (w', Return r) => (write (r ++ nl) w', Return Running)
             | (w', Raise e) => (w', Raise e)
             end
         end.
Proof.
  unfold main_step, bind, input. cbn [stdin ADDRESSBOOK stdout].
  destruct (mem (lower line) end_words); [reflexivity|].
  destruct (command_parser (lower line)) as [[command data]|]; [|reflexivity].
  destruct (command data _) as [w' [r|e]]; reflexivity.
Qed.

(** C5, as the code has it: a round ends the loop exactly when the line
    it read, lower-cased and otherwise as typed (nothing is trimmed), is
    one of the tokens ".", "close", "bye", "exit".  "Bye" ends the loop
    with the farewell; "bye now" does not: no keyword is a prefix of it,
    the round prints the unknown-command message and the loop goes on. *)
Theorem main_step_terminates_on_exit_token (book : AddressBook.t)
  (line : string) (rest out : list string) :
  (snd (main_step {| ADDRESSBOOK := book; stdin := line :: rest;
                     stdout := out |}) = Return Terminated
   <-> In (lower line) ["."; "close"; "bye"; "exit"])
  /\ main_step {| ADDRESSBOOK := book; stdin := "Bye" :: rest; stdout := out |}
     = ({| ADDRESSBOOK := book; stdin := rest;
           stdout := (out ++ [">>>"; ("Goodbye and good luck" ++ nl)%string])%list |},
        Return Terminated)
  /\ main_step {| ADDRESSBOOK := book; stdin := "bye now" :: rest;
                  stdout := out |}
     = ({| ADDRESSBOOK := book; stdin := rest;
           stdout := (out ++ [">>>"; ("Sorry, unknown command" ++ nl)%string])%list |},
        Return Running).
Proof.
  split; [|split].
  - rewrite main_step_line. cbv zeta.
    change ["."; "close"; "bye"; "exit"] with end_words.
    rewrite <- mem_In.
    destruct (mem (lower line) end_words); [now split|].
    split; [|discriminate].
    destruct (command_parser (lower line)) as [[command data]|];
      [|discriminate].
    destruct (command data _) as [w' [r|e]]; discriminate.
  - rewrite main_step_line. unfold write. cbn -[nl]. now rewrite <- app_assoc.
  - rewrite main_step_line. unfold write. cbn -[nl]. now rewrite <- app_assoc.
Qed.

(** C5 as stated fails: the line is not trimmed.  "bye" followed by a
    space is an exit token once trimmed, and the round does not end the
    loop on it. *)
Lemma main_step_does_not_trim :
  exit_token_spec "bye " = true
  /\ main_step (initial ["bye "])
     = ({| ADDRESSBOOK := []; stdin := [];
           stdout := [">>>"; "Sorry, unknown command" ++ nl] |},
        Return Running).
Proof. split; reflexivity. Qed.

(** At the end of the input [input] raises [EOFError], which nothing
    catches. *)
Lemma main_step_eof (book : AddressBook.t) (out : list string) :
  snd (main_step {| ADDRESSBOOK := book; stdin := []; stdout := out |})
  = Raise EOFError.
Proof. reflexivity. Qed.

(** ** The [add] handler *)

Lemma join_In (sep x : string) (l : list string) :
  In x l -> exists a c, join sep l = a ++ x ++ c.
Proof.
  induction l as [|y l IH]; [intros []|].
  intros [->|Hin].
  - destruct l as [|z l].
    + exists "", "". simpl. now rewrite append_nil_r.
    + exists "", (sep ++ join sep (z :: l)). reflexivity.
  - destruct (IH Hin) as (a & c & E).
    destruct l as [|z l]; [destruct Hin|].
    exists (y ++ sep ++ a), c.
    change (join sep (y :: z :: l)) with (y ++ sep ++ join sep (z :: l)).
    rewrite E. now rewrite !append_assoc.
Qed.

(** The text of [show_all_records] holds the name of every stored record,
    so [add] asks its question for every name that is a key of a book
    whose keys are the names of its records. *)
Lemma show_all_records_contains (b : AddressBook.t) (k : string) (r : Record.t) :
  In (k, r) b ->
  contains (AddressBook.show_all_records b) (Record.name r) = true.
Proof.
  intros Hin. unfold AddressBook.show_all_records.
  destruct b as [|kv b]; [destruct Hin|].
  assert (H : In (Record.render r)
                (map (fun kv => Record.render (snd kv)) (kv :: b))).
  { apply in_map_iff. exists (k, r). split; [reflexivity | assumption]. }
  destruct (join_In nl _ _ H) as (a & c & ->).
  unfold Record.render. rewrite append_assoc. apply contains_middle.
Qed.

(** The loop of [add] is the loop of the source: a round reads a line and
    either leaves the loop or goes round again on what is left to read. *)
Lemma add_loop_unfold (name : string) (rec : option Record.t) (w : World) :
  add_loop (stdin w) name rec w
  = (user_input <- input ASK_REWRITE ;;
     if (user_input =? "2")%string then
       book <- get_book ;;
       ret (name ++ "(1)", AddressBook.get book (name ++ "(1)"))
     else if (user_input =? "1")%string then
       match rec with
       | Some r =>
           book <- get_book ;;
           put_book (AddressBook.remove_record book r) ;;
           book <- get_book ;;
           ret (name, AddressBook.get book name)
       | None => raise AttributeError
       end
     else
       print "Please type '1' or '2' to continue" ;;
       (fun w' => add_loop (stdin w') name rec w')) w.
Proof.
  destruct w as [book [|line rest] out]; [reflexivity|].
  cbn [stdin add_loop]. unfold bind, input. cbn [stdin].
  destruct (line =? "2")%string; [reflexivity|].
  destruct (line =? "1")%string; reflexivity.
Qed.

(** What the loop can do to the book and what it hands on: it fails
    without touching the book, or it is left with the new name and the
    record found under it, after at most one [pop]. *)
Lemma add_loop_effect (lines : list string) (name : string)
  (rec : option Record.t) (w : World) :
  match add_loop lines name rec w with
  | (w', Raise _) => ADDRESSBOOK w' = ADDRESSBOOK w
  | (w', Return (name', rec')) =>
      rec' = AddressBook.get (ADDRESSBOOK w') name'
      /\ ((ADDRESSBOOK w' = ADDRESSBOOK w /\ name' = name ++ "(1)")
          \/ (exists r, rec = Some r /\ name' = name
                /\ ADDRESSBOOK w' = AddressBook.pop (ADDRESSBOOK w) (Record.name r)))
  end.
Proof.
  revert w. induction lines as [|l lines IH]; intros [book ins out].
  - cbn [add_loop]. unfold bind, input. cbn [stdin].
    destruct ins; reflexivity.
  - cbn [add_loop]. unfold bind, input. cbn [stdin].
    destruct ins as [|line rest]; [reflexivity|].
    destruct (line =? "2")%string.
    { cbn. split; [reflexivity|]. left. now split. }
    destruct (line =? "1")%string.
    { destruct rec as [r|]; cbn; [|reflexivity].
      split; [reflexivity|]. right. exists r. now repeat split. }
    cbn [print write].
    specialize (IH {| ADDRESSBOOK := book; stdin := rest;
                      stdout := ((out ++ [ASK_REWRITE])
                                 ++ [("Please type '1' or '2' to continue"
                                      ++ nl)%string])%list |}).
    exact IH.
Qed.

(** ** The invariant of the book *)

Section Invariant.

Implicit Types (b : AddressBook.t) (k : string) (r : Record.t).

Lemma keys_match_get b k r :
  keys_match b -> AddressBook.get b k = Some r -> Record.name r = k.
Proof.
  intros Hb Hget. apply get_In in Hget.
  unfold keys_match in Hb. rewrite Forall_forall in Hb.
  exact (Hb _ Hget).
Qed.

Lemma keys_pop b k k' :
  In k' (map fst (AddressBook.pop b k)) -> In k' (map fst b).
Proof.
  induction b as [|[k0 v0] b IH]; simpl; [tauto|].
  destruct (k0 =? k)%string; simpl; tauto.
Qed.

Lemma keys_setitem b k r k' :
  In k' (map fst (AddressBook.setitem b k r)) -> In k' (map fst b) \/ k' = k.
Proof.
  induction b as [|[k0 v0] b IH]; simpl.
  - intros [<- | []]. now right.
  - destruct (k0 =? k)%string; simpl; tauto.
Qed.

Lemma book_inv_pop b k : book_inv b -> book_inv (AddressBook.pop b k).
Proof.
  intros [Hnd Hkm]. split.
  - induction b as [|[k0 v0] b IH]; simpl; [constructor|].
    inversion Hnd as [|? ? Hnot Hnd']; subst.
    inversion Hkm; subst.
    destruct (k0 =? k)%string; simpl; [auto|].
    constructor; [|auto].
    intros Hin. apply Hnot. eapply keys_pop. exact Hin.
  - clear Hnd. induction Hkm as [|[k0 v0] b H Hkm IH]; simpl; [constructor|].
    destruct (k0 =? k)%string; [assumption | now constructor].
Qed.

Lemma book_inv_setitem b k r :
  book_inv b -> Record.name r = k -> book_inv (AddressBook.setitem b k r).
Proof.
  intros [Hnd Hkm] Hname. split.
  - induction b as [|[k0 v0] b IH]; simpl.
    + constructor; [intros [] | constructor].
    + inversion Hnd as [|? ? Hnot Hnd']; subst.
      inversion Hkm; subst.
      destruct (k0 =? Record.name r)%string eqn:E; simpl.
      * now constructor.
      * constructor; [|auto].
        intros Hin. apply keys_setitem in Hin as [Hin | ->]; [auto|].
        now rewrite String.eqb_refl in E.
  - clear Hnd. induction Hkm as [|[k0 v0] b H Hkm IH]; simpl.
    + constructor; [assumption | constructor].
    + destruct (k0 =? k)%string eqn:E.
      * constructor; [|assumption]. apply String.eqb_eq in E. simpl. congruence.
      * now constructor.
Qed.

Lemma no_empty_key_pop b k :
  AddressBook.get b "" = None -> AddressBook.get (AddressBook.pop b k) "" = None.
Proof.
  intros H. destruct (String.eqb_spec "" k) as [<-|Hne].
  - apply get_pop_same.
  - now rewrite get_pop_other.
Qed.

Lemma no_empty_key_setitem b k r :
  AddressBook.get b "" = None -> k <> "" ->
  AddressBook.get (AddressBook.setitem b k r) "" = None.
Proof. intros H Hne. rewrite get_setitem_other; auto. Qed.

End Invariant.

(** ** What a handler can do to the book *)

(** Every handler leaves the book as it is, or pops one key, or stores
    one record under its own name, or pops and then stores. *)
Lemma effect_invariants (b final : AddressBook.t) :
  (exists b',
      (b' = b \/ exists k, b' = AddressBook.pop b k)
      /\ (final = b'
          \/ exists n R, final = AddressBook.setitem b' n R
               /\ (keys_match b' -> Record.name R = n)
               /\ (AddressBook.get b "" = None -> n <> ""))) ->
  (book_inv b -> book_inv final)
  /\ (AddressBook.get b "" = None -> AddressBook.get final "" = None).
Proof.
  intros (b' & Hb' & Hfinal). split.
  - intros Hinv.
    assert (Hinv' : book_inv b')
      by (destruct Hb' as [->|[k ->]]; [assumption | now apply book_inv_pop]).
    destruct Hfinal as [->|(n & R & -> & Hname & _)]; [assumption|].
    apply book_inv_setitem; [assumption|]. apply Hname, Hinv'.
  - intros Hne.
    assert (Hne' : AddressBook.get b' "" = None)
      by (destruct Hb' as [->|[k ->]]; [assumption | now apply no_empty_key_pop]).
    destruct Hfinal as [->|(n & R & -> & _ & Hn)]; [assumption|].
    apply no_empty_key_setitem; auto.
Qed.

Lemma error_handler_world (func : handler) (args : list string) (w : World) :
  fst (error_handler func args w) = fst (func args w).
Proof.
  unfold error_handler. destruct (func args w) as [w' [r|[]]]; reflexivity.
Qed.

Lemma add_func_effect (args : list string) (w : World) :
  exists b',
    (b' = ADDRESSBOOK w \/ exists k, b' = AddressBook.pop (ADDRESSBOOK w) k)
    /\ (ADDRESSBOOK (fst (add_func args w)) = b'
        \/ exists n R,
             ADDRESSBOOK (fst (add_func args w)) = AddressBook.setitem b' n R
             /\ (keys_match b' -> Record.name R = n)
             /\ (AddressBook.get (ADDRESSBOOK w) "" = None -> n <> "")).
Proof.
  destruct args as [|a0 [|a1 rest]];
    [exists (ADDRESSBOOK w); split; [now left | now left] ..|].
  unfold add_func, bind, item, ret, get_book, Name.init. cbn [nth_error].
  set (ph := Phone.init a1).
  destruct (contains (AddressBook.show_all_records (ADDRESSBOOK w)) a0) eqn:Hc.
  - pose proof (add_loop_effect (stdin w) a0
                  (AddressBook.get (ADDRESSBOOK w) a0) w) as Hloop.
    destruct (add_loop (stdin w) a0 (AddressBook.get (ADDRESSBOOK w) a0) w)
      as [w1 [[n' r']|e]].
    + destruct Hloop as [Hr' Hcase]. cbn [fst snd].
      exists (ADDRESSBOOK w1). split.
      { destruct Hcase as [[-> _]|(r & _ & _ & ->)]; [now left|].
        right. now exists (Record.name r). }
      destruct (isnumeric ph); cbn [negb]; [|now left].
      right. unfold raise, put_book, AddressBook.add_record.
      assert (Hn' : AddressBook.get (ADDRESSBOOK w) "" = None -> n' <> "").
      { intros Hne. destruct Hcase as [[_ ->]|(r & Hr & -> & _)].
        - destruct a0; discriminate.
        - intros ->. congruence. }
      destruct r' as [r'|]; cbn [fst ADDRESSBOOK Record.name Record.init].
      * exists n', (Record.add_phone r' ph). repeat split; auto.
        intros Hkm. cbn. symmetry in Hr'.
        apply (keys_match_get _ _ _ Hkm Hr').
      * exists n', (Record.init n' (Some ph)). repeat split; auto.
    + cbn [fst]. exists (ADDRESSBOOK w). split; [now left|]. now left.
  - exists (ADDRESSBOOK w). split; [now left|]. cbn [fst snd].
    destruct (isnumeric ph); cbn [negb]; [|now left].
    right. unfold put_book, AddressBook.add_record.
    assert (Hn : a0 <> "").
    { intros ->. now rewrite contains_nil in Hc. }
    destruct (AddressBook.get (ADDRESSBOOK w) a0) as [r|] eqn:Hget;
      cbn [fst ADDRESSBOOK Record.name Record.init].
    * exists a0, (Record.add_phone r ph). repeat split; auto.
      intros Hkm. cbn. apply (keys_match_get _ _ _ Hkm Hget).
    * exists a0, (Record.init a0 (Some ph)). repeat split; auto.
Qed.

Lemma record_change_name (r : Record.t) (old_p new_p : string) :
  Record.name (fst (Record.change r old_p new_p)) = Record.name r.
Proof.
  unfold Record.change. destruct (find _ _); reflexivity.
Qed.

Lemma change_func_effect (args : list string) (w : World) :
  ADDRESSBOOK (fst (change_func args w)) = ADDRESSBOOK w
  \/ exists n R,
       ADDRESSBOOK (fst (change_func args w))
       = AddressBook.setitem (ADDRESSBOOK w) n R
       /\ (keys_match (ADDRESSBOOK w) -> Record.name R = n)
       /\ (AddressBook.get (ADDRESSBOOK w) "" = None -> n <> "").
Proof.
  destruct args as [|a0 [|a1 [|a2 rest]]]; [now left ..|].
  unfold change_func, bind, item, ret, raise, get_book, put_book, Name.init.
  cbn [nth_error].
  destruct (isnumeric a2); cbn [negb fst ADDRESSBOOK]; [|now left].
  unfold AddressBook.change_record.
  destruct (AddressBook.get (ADDRESSBOOK w) a0) as [record|] eqn:Hget;
    [|now left].
  right. exists a0, (fst (Record.change record a1 a2)). repeat split.
  - intros Hkm. rewrite record_change_name.
    apply (keys_match_get _ _ _ Hkm Hget).
  - intros Hne ->. congruence.
Qed.

Lemma delete_contact_func_effect (args : list string) (w : World) :
  ADDRESSBOOK (fst (delete_contact_func args w)) = ADDRESSBOOK w
  \/ exists k,
       ADDRESSBOOK (fst (delete_contact_func args w))
       = AddressBook.pop (ADDRESSBOOK w) k.
Proof.
  destruct args as [|[|c a0] rest]; [now left | now left |].
  right. now exists (String c a0).
Qed.

Lemma handler_effect (command : handler) (args : list string) (w : World) :
  In command (map fst COMMANDS) ->
  exists b',
    (b' = ADDRESSBOOK w \/ exists k, b' = AddressBook.pop (ADDRESSBOOK w) k)
    /\ (ADDRESSBOOK (fst (command args w)) = b'
        \/ exists n R,
             ADDRESSBOOK (fst (command args w)) = AddressBook.setitem b' n R
             /\ (keys_match b' -> Record.name R = n)
             /\ (AddressBook.get (ADDRESSBOOK w) "" = None -> n <> "")).
Proof.
  cbn [COMMANDS map fst].
  intros [<-|[<-|[<-|[<-|[<-|[<-|[<-|[]]]]]]]];
    unfold add, hello, show_all, change, phone, helper, delete_contact;
    rewrite error_handler_world.
  - apply add_func_effect.
  - exists (ADDRESSBOOK w). split; now left.
  - exists (ADDRESSBOOK w). split; now left.
  - exists (ADDRESSBOOK w). split; [now left|].
    destruct (change_func_effect args w) as [H|H]; [now left | now right].
  - exists (ADDRESSBOOK w). split; [now left|].
    left. destruct args; reflexivity.
  - exists (ADDRESSBOOK w). split; now left.
  - destruct (delete_contact_func_effect args w) as [H|[k H]].
    + exists (ADDRESSBOOK w). split; now left.
    + exists (AddressBook.pop (ADDRESSBOOK w) k). split; [|now left].
      right. now exists k.
Qed.

(** C9: the book starts empty, and every handler, with any arguments and
    any console input, keeps the invariant: every key of the book is the
    name of the record stored under it, and no key occurs twice. *)
Theorem handlers_preserve_book_inv (command : handler) (args : list string)
  (w : World) :
  In command [add; change; delete_contact; phone; show_all; hello; helper] ->
  book_inv (ADDRESSBOOK w) ->
  (forall lines, book_inv (ADDRESSBOOK (initial lines)))
  /\ book_inv (ADDRESSBOOK (fst (command args w)))
  /\ (forall k r,
         AddressBook.get (ADDRESSBOOK (fst (command args w))) k = Some r ->
         Record.name r = k)
  /\ NoDup (map fst (ADDRESSBOOK (fst (command args w)))).
Proof.
  intros Hin Hinv.
  assert (Hin' : In command (map fst COMMANDS)).
  { cbn [COMMANDS map fst]. cbn [In] in *. tauto. }
  destruct (effect_invariants _ _ (handler_effect command args w Hin'))
    as [Hpres _].
  specialize (Hpres Hinv). split; [|split; [exact Hpres|split]].
  - intros lines. split; constructor.
  - intros k r Hget. destruct Hpres as [_ Hkm].
    apply (keys_match_get _ _ _ Hkm Hget).
  - apply Hpres.
Qed.

Lemma handlers_preserve_book_inv_witness :
  book_inv (ADDRESSBOOK (fst (add ["Alice"; "123-456-7890"] (initial [])))).
Proof.
  refine (proj1 (proj2 (handlers_preserve_book_inv add ["Alice"; "123-456-7890"]
                          (initial []) (or_introl eq_refl) _))).
  split; constructor.
Defined.

(** Every book the program can build satisfies the invariant and has no
    record under the empty name. *)
Lemma reachable_invariants (b : AddressBook.t) :
  reachable b -> book_inv b /\ AddressBook.get b "" = None.
Proof.
  induction 1 as [|command args w Hin Hreach [Hinv Hne]].
  - split; [split; constructor | reflexivity].
  - destruct (effect_invariants _ _ (handler_effect command args w Hin))
      as [H1 H2].
    split; auto.
Qed.

(** ** A line that is only a keyword *)

Lemma command_parser_items_In (items : list (handler * string))
  (line : string) (command : handler) (data : list string) :
  command_parser_items items line = Some (command, data) ->
  In command (map fst items).
Proof.
  induction items as [|[c k] items IH]; simpl; [discriminate|].
  destruct (startswith line k).
  - intros [= <- _]. now left.
  - intros H. right. auto.
Qed.

(** A round of the loop of [main] stays within the books that the
    handlers can build. *)
Lemma main_step_reachable (w : World) :
  reachable (ADDRESSBOOK w) -> reachable (ADDRESSBOOK (fst (main_step w))).
Proof.
  intros Hreach. destruct w as [book [|line rest] out]; [exact Hreach|].
  rewrite main_step_line. cbv zeta.
  destruct (mem (lower line) end_words); [exact Hreach|].
  destruct (command_parser (lower line)) as [[command data]|] eqn:Hparse;
    [|exact Hreach].
  apply command_parser_items_In in Hparse.
  pose proof (reachable_call command data
                {| ADDRESSBOOK := book; stdin := rest;
                   stdout := (out ++ [">>>"])%list |} Hparse Hreach) as H.
  destruct (command data _) as [w' [r|e]]; exact H.
Qed.

(** C10: for every registered keyword, the line that is just the keyword
    is parsed into the one argument "" (the empty string), not into an
    empty argument list.  So in every book the program can build (it
    never holds a record under the empty name) a line that lower-cases to
    "phone" is answered with the not-found message for the empty name,
    while a line that lower-cases to "add" is answered with the
    missing-argument message, its second argument being absent. *)
Theorem bare_keyword_single_empty_argument (book : AddressBook.t)
  (line_phone line_add : string) (rest out : list string) :
  reachable book ->
  lower line_phone = "phone" ->
  lower line_add = "add" ->
  Forall (fun ck => command_parser (snd ck) = Some (fst ck, [""])) COMMANDS
  /\ phone [""] {| ADDRESSBOOK := book; stdin := rest; stdout := out |}
     = ({| ADDRESSBOOK := book; stdin := rest; stdout := out |},
        Return "There is no contact with the name ")
  /\ main_step {| ADDRESSBOOK := book; stdin := line_phone :: rest;
                  stdout := out |}
     = ({| ADDRESSBOOK := book; stdin := rest;
           stdout := (out ++ [">>>";
                              ("There is no contact with the name " ++ nl)%string])%list |},
        Return Running)
  /\ add [""] {| ADDRESSBOOK := book; stdin := rest; stdout := out |}
     = ({| ADDRESSBOOK := book; stdin := rest; stdout := out |},
        Return "You didn't provide contact name or phone number")
  /\ main_step {| ADDRESSBOOK := book; stdin := line_add :: rest;
                  stdout := out |}
     = ({| ADDRESSBOOK := book; stdin := rest;
           stdout := (out ++ [">>>";
                              ("You didn't provide contact name or phone number"
                               ++ nl)%string])%list |},
        Return Running).
Proof.
  intros Hreach Hphone Hadd.
  destruct (reachable_invariants _ Hreach) as [_ Hne].
  assert (Hp : forall w, ADDRESSBOOK w = book ->
             phone [""] w = (w, Return "There is no contact with the name ")).
  { intros w Hw. rewrite phone_shows. unfold AddressBook.show_one_record.
    now rewrite Hw, Hne. }
  split; [|split; [|split; [|split]]].
  - repeat constructor.
  - now apply Hp.
  - rewrite main_step_line, Hphone. cbv zeta.
    change (mem "phone" end_words) with false.
    change (command_parser "phone") with (Some (phone, [""])).
    cbv iota beta. rewrite Hp by reflexivity.
    unfold write. cbn [ADDRESSBOOK stdin stdout].
    now rewrite <- app_assoc.
  - reflexivity.
  - rewrite main_step_line, Hadd. cbv zeta.
    change (mem "add" end_words) with false.
    change (command_parser "add") with (Some (add, [""])).
    cbv iota beta.
    change (add [""] ?w) with (w, Return "You didn't provide contact name or phone number").
    unfold write. cbn [ADDRESSBOOK stdin stdout].
    now rewrite <- app_assoc.
Qed.

Lemma bare_keyword_single_empty_argument_witness :
  main_step (initial ["Phone"])
  = ({| ADDRESSBOOK := []; stdin := [];
        stdout := [">>>"; ("There is no contact with the name " ++ nl)%string] |},
     Return Running).
Proof.
  exact (proj1 (proj2 (proj2 (bare_keyword_single_empty_argument
                                [] "Phone" "ADD" [] [] reachable_empty
                                eq_refl eq_refl)))).
Defined.

(** ** Adding to a contact that exists *)

Lemma append_suffix_neq (s : string) : s ++ "(1)" <> s.
Proof.
  induction s as [|c s IH]; simpl; [discriminate|].
  intros [= H]. now apply IH.
Qed.

Lemma render_one (name p : string) :
  Record.render (Record.init name (Some p)) = name ++ " : " ++ p.
Proof. reflexivity. Qed.

Lemma add_loop_rewrite (book : AddressBook.t) (rest out : list string)
  (name : string) (r : Record.t) :
  add_loop ("1" :: rest) name (Some r)
    {| ADDRESSBOOK := book; stdin := "1" :: rest; stdout := out |}
  = ({| ADDRESSBOOK := AddressBook.pop book (Record.name r); stdin := rest;
        stdout := (out ++ [ASK_REWRITE])%list |},
     Return (name, AddressBook.get (AddressBook.pop book (Record.name r)) name)).
Proof. reflexivity. Qed.

Lemma add_loop_create (book : AddressBook.t) (rest out : list string)
  (name : string) (rec : option Record.t) :
  add_loop ("2" :: rest) name rec
    {| ADDRESSBOOK := book; stdin := "2" :: rest; stdout := out |}
  = ({| ADDRESSBOOK := book; stdin := rest;
        stdout := (out ++ [ASK_REWRITE])%list |},
     Return (name ++ "(1)", AddressBook.get book (name ++ "(1)"))).
Proof. reflexivity. Qed.

(** Answers other than "1" and "2" are asked again. *)
Lemma add_loop_skip (junk : list string) (answer : string) (rest : list string)
  (book : AddressBook.t) (out : list string) (name : string)
  (rec : option Record.t) :
  Forall (fun l => l <> "1" /\ l <> "2") junk ->
  exists out',
    add_loop (junk ++ answer :: rest)%list name rec
      {| ADDRESSBOOK := book; stdin := (junk ++ answer :: rest)%list;
         stdout := out |}
    = add_loop (answer :: rest) name rec
        {| ADDRESSBOOK := book; stdin := answer :: rest; stdout := out' |}.
Proof.
  intros Hjunk. revert out.
  induction Hjunk as [|l junk [H1 H2] Hjunk IH]; intros out.
  - now exists out.
  - apply String.eqb_neq in H1, H2.
    cbn [app add_loop]. unfold bind at 1, input at 1. cbn [stdin].
    rewrite H2, H1. unfold bind at 1, print. cbn [write stdin stdout ADDRESSBOOK].
    apply IH.
Qed.

(** Every answer other than "1" and "2" costs one question and one
    reminder on the console. *)
Lemma add_loop_skip_out (junk : list string) (answer : string)
  (rest : list string) (book : AddressBook.t) (out : list string)
  (name : string) (rec : option Record.t) :
  Forall (fun l => l <> "1" /\ l <> "2") junk ->
  add_loop (junk ++ answer :: rest)%list name rec
    {| ADDRESSBOOK := book; stdin := (junk ++ answer :: rest)%list;
       stdout := out |}
  = add_loop (answer :: rest) name rec
      {| ADDRESSBOOK := book; stdin := answer :: rest;
         stdout := (out ++ flat_map
                      (fun _ : string =>
                         [ASK_REWRITE;
                          ("Please type '1' or '2' to continue" ++ nl)%string])
                      junk)%list |}.
Proof.
  intros Hjunk. revert out.
  induction Hjunk as [|l junk [H1 H2] Hjunk IH]; intros out.
  - cbn [app flat_map]. now rewrite app_nil_r.
  - apply String.eqb_neq in H1, H2.
    cbn [app add_loop]. unfold bind at 1, input at 1. cbn [stdin].
    rewrite H2, H1. unfold bind at 1, print. cbn [write stdin stdout ADDRESSBOOK].
    etransitivity; [apply IH|]. do 2 f_equal.
    cbn [flat_map app write stdout]. now rewrite <- !app_assoc.
Qed.

(** C2, as the code has it: for a contact N that exists under its own
    name with the one phone P1, [add(N, P2)] with a numeric P2 first asks
    whether to rewrite the record or to create a new one, and asks again
    after any answer other than "1" and "2": the console shows the
    question once for every answer read, with the reminder after each
    answer that is neither, and the input is read up to the answer "1" or
    "2".  On the answer
    "1" the record of N is replaced by a new record with P2 alone, so
    [phone(N)] then lists only P2.  On the answer "2" the record of N
    stays as it is, so [phone(N)] still lists only P1, and P2 goes to the
    record named N followed by "(1)": a new record with P2 alone, or, when
    that record exists, at the end of its phones. *)
Theorem add_existing_asks_first (w : World) (N P1 P2 : string)
  (r : Record.t) (junk rest : list string) :
  AddressBook.get (ADDRESSBOOK w) N = Some r ->
  Record.name r = N ->
  Record.phones r = [P1] ->
  isnumeric P2 = true ->
  Forall (fun l => l <> "1" /\ l <> "2") junk ->
  let question :=
    ("Contact with this name already exist, do you want to rewrite it or create new record? '1'/'2'"
     ++ nl)%string in
  let reminder := ("Please type '1' or '2' to continue" ++ nl)%string in
  let asked :=
    (stdout w ++ flat_map (fun _ : string => [question; reminder]) junk
     ++ [question])%list in
  (stdin w = (junk ++ "1" :: rest)%list ->
   snd (add [N; P2] w)
   = Return ("You just added contact " ++ dquote ++ N ++ dquote
             ++ " with phone " ++ dquote ++ P2 ++ dquote
             ++ " to your list of contacts")
   /\ snd (phone [N] (fst (add [N; P2] w))) = Return (N ++ " : " ++ P2)
   /\ stdout (fst (add [N; P2] w)) = asked
   /\ stdin (fst (add [N; P2] w)) = rest)
  /\ (stdin w = (junk ++ "2" :: rest)%list ->
      snd (add [N; P2] w)
      = Return ("You just added contact " ++ dquote ++ (N ++ "(1)") ++ dquote
                ++ " with phone " ++ dquote ++ P2 ++ dquote
                ++ " to your list of contacts")
      /\ snd (phone [N] (fst (add [N; P2] w))) = Return (N ++ " : " ++ P1)
      /\ (exists r1,
           AddressBook.get (ADDRESSBOOK (fst (add [N; P2] w))) (N ++ "(1)")
           = Some r1
           /\ Record.phones r1
              = match AddressBook.get (ADDRESSBOOK w) (N ++ "(1)") with
                | Some r0 => (Record.phones r0 ++ [P2])%list
                | None => [P2]
                end)
      /\ stdout (fst (add [N; P2] w)) = asked
      /\ stdin (fst (add [N; P2] w)) = rest).
Proof.
  intros Hget Hname Hphones Hnum Hjunk question reminder asked.
  assert (Hc : contains (AddressBook.show_all_records (ADDRESSBOOK w)) N = true).
  { rewrite <- Hname. apply (show_all_records_contains _ N). now apply get_In. }
  assert (Hsan : Phone.init P2 = P2) by now apply sanitize_numeric.
  destruct w as [book ins out]. cbn [ADDRESSBOOK stdin stdout] in *.
  split; intros ->.
  - unfold add, error_handler, add_func, bind, item, ret, get_book, Name.init.
    cbn [nth_error ADDRESSBOOK stdin]. rewrite Hc, Hsan, Hget.
    cbn [stdin].
    rewrite (add_loop_skip_out junk "1" rest book out N (Some r) Hjunk).
    rewrite add_loop_rewrite, Hname, get_pop_same. cbn [fst snd].
    rewrite Hnum. unfold put_book.
    cbn [negb fst snd ADDRESSBOOK stdin stdout]. split; [reflexivity|].
    split; [|split; [subst asked; now rewrite <- app_assoc | reflexivity]].
    rewrite phone_shows. cbn [snd ADDRESSBOOK].
    unfold AddressBook.show_one_record, AddressBook.add_record.
    cbn [Record.name Record.init]. rewrite get_setitem_same.
    now rewrite render_one.
  - unfold add, error_handler, add_func, bind, item, ret, get_book, Name.init.
    cbn [nth_error ADDRESSBOOK stdin]. rewrite Hc, Hsan, Hget.
    cbn [stdin].
    rewrite (add_loop_skip_out junk "2" rest book out N (Some r) Hjunk).
    rewrite add_loop_create. cbn [fst snd].
    rewrite Hnum. unfold put_book. cbn [negb].
    assert (Hother : N <> N ++ "(1)")
      by (intros H; symmetry in H; now apply append_suffix_neq in H).
    destruct (AddressBook.get book (N ++ "(1)")) as [r0|] eqn:Hget1;
      cbn [fst snd ADDRESSBOOK stdin stdout].
    + split; [reflexivity|].
      split; [|split; [|split; [subst asked; now rewrite <- app_assoc
                               | reflexivity]]].
      * rewrite phone_shows. cbn [snd ADDRESSBOOK].
        unfold AddressBook.show_one_record.
        rewrite get_setitem_other, Hget by assumption.
        unfold Record.render. now rewrite Hname, Hphones.
      * exists (Record.add_phone r0 P2). now rewrite get_setitem_same.
    + split; [reflexivity|].
      split; [|split; [|split; [subst asked; now rewrite <- app_assoc
                               | reflexivity]]].
      * rewrite phone_shows. cbn [snd ADDRESSBOOK].
        unfold AddressBook.show_one_record, AddressBook.add_record.
        cbn [Record.name Record.init].
        rewrite get_setitem_other, Hget by assumption.
        unfold Record.render. now rewrite Hname, Hphones.
      * exists (Record.init (N ++ "(1)") (Some P2)).
        unfold AddressBook.add_record. cbn [Record.name Record.init].
        now rewrite get_setitem_same.
Qed.

Lemma add_existing_asks_first_witness :
  snd (phone ["Alice"]
         (fst (add ["Alice"; "1112223333"]
                 {| ADDRESSBOOK := [("Alice", Record.init "Alice" (Some "1234567890"))];
                    stdin := ["yes"; "1"; "hello"]; stdout := [] |})))
  = Return "Alice : 1112223333"
  /\ stdout (fst (add ["Alice"; "1112223333"]
                 {| ADDRESSBOOK := [("Alice", Record.init "Alice" (Some "1234567890"))];
                    stdin := ["yes"; "1"; "hello"]; stdout := [] |}))
     = [ ("Contact with this name already exist, do you want to rewrite it or create new record? '1'/'2'"
          ++ nl)%string;
         ("Please type '1' or '2' to continue" ++ nl)%string;
         ("Contact with this name already exist, do you want to rewrite it or create new record? '1'/'2'"
          ++ nl)%string ]
  /\ stdin (fst (add ["Alice"; "1112223333"]
                 {| ADDRESSBOOK := [("Alice", Record.init "Alice" (Some "1234567890"))];
                    stdin := ["yes"; "1"; "hello"]; stdout := [] |}))
     = ["hello"].
Proof.
  assert (Hjunk : Forall (fun l : string => l <> "1" /\ l <> "2") ["yes"])
    by (repeat constructor; discriminate).
  exact (proj2 (proj1 (add_existing_asks_first
    {| ADDRESSBOOK := [("Alice", Record.init "Alice" (Some "1234567890"))];
       stdin := ["yes"; "1"; "hello"]; stdout := [] |}
    "Alice" "1234567890" "1112223333"
    (Record.init "Alice" (Some "1234567890")) ["yes"] ["hello"]
    eq_refl eq_refl eq_refl eq_refl Hjunk) eq_refl)).
Defined.

(** C2 as stated fails.  In the book that [add("Alice", "123-456-7890")]
    builds, [add("Alice", "1112223333")] never puts the second phone next
    to the first: after the answer "1" [phone("Alice")] shows the new
    phone alone, after the answer "2" the old phone alone, and without an
    answer the call dies on [EOFError]. *)
Lemma add_existing_does_not_append :
  ADDRESSBOOK (fst (add ["Alice"; "123-456-7890"] (initial [])))
  = [("Alice", Record.init "Alice" (Some "1234567890"))]
  /\ snd (phone ["Alice"]
            (fst (add ["Alice"; "1112223333"]
                    {| ADDRESSBOOK := [("Alice", Record.init "Alice" (Some "1234567890"))];
                       stdin := ["1"]; stdout := [] |})))
     = Return "Alice : 1112223333"
  /\ snd (phone ["Alice"]
            (fst (add ["Alice"; "1112223333"]
                    {| ADDRESSBOOK := [("Alice", Record.init "Alice" (Some "1234567890"))];
                       stdin := ["2"]; stdout := [] |})))
     = Return "Alice : 1234567890"
  /\ snd (add ["Alice"; "1112223333"]
            {| ADDRESSBOOK := [("Alice", Record.init "Alice" (Some "1234567890"))];
               stdin := []; stdout := [] |})
     = Raise EOFError
  /\ "Alice : 1112223333" <> "Alice : 1234567890,1112223333"
  /\ "Alice : 1234567890" <> "Alice : 1234567890,1112223333".
Proof. repeat split; try reflexivity; discriminate. Qed.

(** ** The loop of [main] comes to an end *)

Lemma add_loop_stdin (lines : list string) (name : string)
  (rec : option Record.t) (w : World) :
  List.length (stdin (fst (add_loop lines name rec w))) <= List.length (stdin w).
Proof.
  revert w. induction lines as [|l lines IH]; intros [book ins out].
  - cbn [add_loop]. unfold bind, input. cbn [stdin].
    destruct ins; cbn; lia.
  - cbn [add_loop]. unfold bind, input. cbn [stdin].
    destruct ins as [|line rest]; [cbn; lia|].
    destruct (line =? "2")%string; [cbn; lia|].
    destruct (line =? "1")%string.
    { destruct rec; cbn; lia. }
    cbn [print write].
    etransitivity; [apply IH|]. cbn. lia.
Qed.

Lemma add_func_stdin (args : list string) (w : World) :
  List.length (stdin (fst (add_func args w))) <= List.length (stdin w).
Proof.
  destruct args as [|a0 [|a1 rest]]; [cbn; lia ..|].
  unfold add_func, bind, item, ret, get_book, Name.init. cbn [nth_error].
  destruct (contains _ a0).
  - pose proof (add_loop_stdin (stdin w) a0
                  (AddressBook.get (ADDRESSBOOK w) a0) w) as H.
    destruct (add_loop _ _ _ w) as [w1 [[n' r']|e]]; cbn [fst snd] in *;
      [|assumption].
    destruct (isnumeric _); cbn [negb]; [|exact H].
    destruct r'; exact H.
  - cbn [fst snd]. destruct (isnumeric _); cbn [negb]; [|cbn; lia].
    destruct (AddressBook.get _ _); cbn; lia.
Qed.

Lemma handler_stdin (command : handler) (args : list string) (w : World) :
  In command (map fst COMMANDS) ->
  List.length (stdin (fst (command args w))) <= List.length (stdin w).
Proof.
  cbn [COMMANDS map fst].
  intros [<-|[<-|[<-|[<-|[<-|[<-|[<-|[]]]]]]]];
    unfold add, hello, show_all, change, phone, helper, delete_contact;
    rewrite error_handler_world.
  - apply add_func_stdin.
  - cbn; lia.
  - cbn; lia.
  - destruct args as [|a0 [|a1 [|a2 rest]]]; [cbn; lia ..|].
    unfold change_func, bind, item, ret, raise, get_book, put_book.
    cbn [nth_error]. destruct (isnumeric a2); cbn; lia.
  - destruct args; cbn; lia.
  - cbn; lia.
  - destruct args as [|[|c a0] rest]; cbn; lia.
Qed.

Lemma main_step_consumes (w : World) :
  match main_step w with
  | (w', Return Running) => List.length (stdin w') < List.length (stdin w)
  | _ => True
  end.
Proof.
  destruct w as [book [|line rest] out]; [exact I|].
  rewrite main_step_line. cbv zeta.
  destruct (mem (lower line) end_words); [exact I|].
  destruct (command_parser (lower line)) as [[command data]|] eqn:Hparse.
  - apply command_parser_items_In in Hparse.
    pose proof (handler_stdin command data
                  {| ADDRESSBOOK := book; stdin := rest;
                     stdout := (out ++ [">>>"])%list |} Hparse) as H.
    destruct (command data _) as [w' [r|e]]; [|exact I].
    cbn in *. lia.
  - cbn. lia.
Qed.

(** Every round that goes on has read a line, so the loop of [main] ends,
    with the [break] or with an exception, within one round more than
    there are lines to read. *)
Lemma main_loop_total (fuel : nat) (w : World) :
  List.length (stdin w) < fuel ->
  exists w' r, main_loop fuel w = Some (w', r).
Proof.
  revert w. induction fuel as [|fuel IH]; intros w Hlt; [lia|].
  cbn [main_loop]. pose proof (main_step_consumes w) as H.
  destruct (main_step w) as [w1 [[|]|e]].
  - apply IH. lia.
  - now exists w1, (Return tt).
  - now exists w1, (Raise e).
Qed.

(** A session: two contacts, a change, a deletion and the exit. *)
Example session :
  option_map (fun r => stdout (fst r))
    (main 10 (initial ["Add Alice 123-456-7890"; "add bob 5"; "show all";
                       "change alice 1234567890 9998887776"; "phone alice";
                       "delete bob"; "phone bob"; "exit"]))
  = Some [ (BANNER ++ nl)%string; ">>>";
           ("You just added contact " ++ dquote ++ "alice" ++ dquote
            ++ " with phone " ++ dquote ++ "1234567890" ++ dquote
            ++ " to your list of contacts" ++ nl)%string; ">>>";
           ("You just added contact " ++ dquote ++ "bob" ++ dquote
            ++ " with phone " ++ dquote ++ "5" ++ dquote
            ++ " to your list of contacts" ++ nl)%string; ">>>";
           ("alice : 1234567890" ++ nl ++ "bob : 5" ++ nl)%string; ">>>";
           ("You just changed number for contact 'alice'. New number is '9998887776'"
            ++ nl)%string; ">>>";
           ("alice : 9998887776" ++ nl)%string; ">>>";
           ("bob was deleted from your contact list" ++ nl)%string; ">>>";
           ("There is no contact with the name bob" ++ nl)%string; ">>>";
           ("Goodbye and good luck" ++ nl)%string ].
Proof. reflexivity. Qed.

(** * Further properties of the code *)

(** ** More on [strip] and [sanitize_number] *)

Section StripFacts.

Lemma lstrip_starts_clean (s : string) : starts_clean (lstrip s) = true.
Proof.
  induction s as [|c s IH]; simpl; [reflexivity|].
  destruct (isspace c) eqn:E; [assumption|]. simpl. now rewrite E.
Qed.

Lemma starts_clean_lstrip (s : string) : starts_clean s = true -> lstrip s = s.
Proof.
  destruct s as [|c s]; simpl; [reflexivity|].
  now destruct (isspace c).
Qed.

Lemma starts_clean_rstrip (s : string) :
  starts_clean s = true -> starts_clean (rstrip s) = true.
Proof.
  destruct s as [|c s]; simpl; [reflexivity|].
  intros H. destruct (rstrip s); [|exact H].
  destruct (isspace c) eqn:E; [discriminate|]. simpl. now rewrite E.
Qed.

Lemma rstrip_idem (s : string) : rstrip (rstrip s) = rstrip s.
Proof.
  induction s as [|c s IH]; simpl; [reflexivity|].
  destruct (rstrip s) as [|d r] eqn:E.
  - destruct (isspace c) eqn:Ec; simpl; [reflexivity|]. now rewrite Ec.
  - change (rstrip (String c (String d r))) with
      (match rstrip (String d r) with
       | EmptyString => if isspace c then EmptyString else String c EmptyString
       | r' => String c r'
       end).
    now rewrite IH.
Qed.

Lemma strip_idem (s : string) : strip (strip s) = strip s.
Proof.
  unfold strip.
  rewrite (starts_clean_lstrip (rstrip (lstrip s))).
  - apply rstrip_idem.
  - apply starts_clean_rstrip, lstrip_starts_clean.
Qed.

Lemma occurs_lstrip (c : ascii) (s : string) :
  occurs c s = false -> occurs c (lstrip s) = false.
Proof.
  induction s as [|a s IH]; simpl; [reflexivity|].
  intros H. apply orb_false_iff in H as [Ha Hs].
  destruct (isspace a); [auto|]. simpl. now rewrite Ha, Hs.
Qed.

Lemma occurs_rstrip (c : ascii) (s : string) :
  occurs c s = false -> occurs c (rstrip s) = false.
Proof.
  induction s as [|a s IH]; simpl; [reflexivity|].
  intros H. apply orb_false_iff in H as [Ha Hs].
  specialize (IH Hs). destruct (rstrip s) as [|d r].
  - destruct (isspace a); simpl; [reflexivity|]. now rewrite Ha.
  - change (occurs c (String a (String d r)))
      with (Ascii.eqb c a || occurs c (String d r)).
    now rewrite Ha, IH.
Qed.

Lemma occurs_strip (c : ascii) (s : string) :
  occurs c s = false -> occurs c (strip s) = false.
Proof. intros H. now apply occurs_rstrip, occurs_lstrip. Qed.

(** Without the four characters, sanitizing is stripping. *)
Lemma sanitize_plain (s : string) :
  Forall (fun c => occurs c s = false) ["-"; "("; ")"; "+"]%char ->
  Phone.sanitize_number s = strip s.
Proof.
  intros H.
  inversion H as [|? ? H1 H']; subst. inversion H' as [|? ? H2 H'']; subst.
  inversion H'' as [|? ? H3 H''']; subst. inversion H''' as [|? ? H4 _]; subst.
  unfold Phone.sanitize_number. rewrite !replace_char.
  rewrite (remove_char_absent "-") by now apply occurs_strip.
  rewrite (remove_char_absent "(") by now apply occurs_strip.
  rewrite (remove_char_absent ")") by now apply occurs_strip.
  now rewrite (remove_char_absent "+") by now apply occurs_strip.
Qed.

End StripFacts.

Lemma sanitize_number_none_left (s : string) :
  Forall (fun c => occurs c (Phone.sanitize_number s) = false)
    ["-"; "("; ")"; "+"]%char.
Proof. repeat constructor; apply sanitize_number_deletes; simpl; tauto. Qed.

(** X1: a sanitized number is the stripped input without its "-", "(",
    ")" and "+", all other characters in their order; none of the four is
    left in it. *)
Theorem sanitize_number_clean (s : string) :
  Phone.sanitize_number s
  = remove_char "+" (remove_char ")" (remove_char "(" (remove_char "-" (strip s))))
  /\ Forall (fun c => occurs c (Phone.sanitize_number s) = false)
       ["-"; "("; ")"; "+"]%char.
Proof.
  split.
  - unfold Phone.sanitize_number. now rewrite !replace_char.
  - apply sanitize_number_none_left.
Qed.

(** X2: a second pass of [sanitize_number] only strips the whitespace
    that the first pass left at the ends, and from then on the value no
    longer changes. *)
Theorem sanitize_number_second_pass (s : string) :
  Phone.sanitize_number (Phone.sanitize_number s)
  = strip (Phone.sanitize_number s)
  /\ Phone.sanitize_number (Phone.sanitize_number (Phone.sanitize_number s))
     = Phone.sanitize_number (Phone.sanitize_number s).
Proof.
  assert (H1 : Phone.sanitize_number (Phone.sanitize_number s)
               = strip (Phone.sanitize_number s))
    by (apply sanitize_plain, sanitize_number_none_left).
  split; [exact H1|].
  rewrite H1 at 1. rewrite sanitize_plain.
  - now rewrite strip_idem.
  - pose proof (sanitize_number_none_left s) as H.
    rewrite Forall_forall in *. intros c Hc. apply occurs_strip. auto.
Qed.

(** X3: a value that passes [isnumeric] has nothing to strip or delete:
    [Phone] stores it as it is. *)
Theorem phone_numeric_unchanged (s : string) :
  isnumeric s = true ->
  Phone.init s = s /\ strip s = s /\ isnumeric (Phone.init s) = true.
Proof.
  intros H. pose proof (sanitize_numeric s H) as E.
  unfold Phone.init. rewrite E. repeat split; [|exact H].
  unfold strip.
  now rewrite (all_numeric_lstrip _ H), (all_numeric_rstrip _ (isnumeric_all _ H)).
Qed.

Lemma phone_numeric_unchanged_witness :
  Phone.init "0951234567" = "0951234567".
Proof. exact (proj1 (phone_numeric_unchanged "0951234567" eq_refl)). Defined.

(** ** More on [Record] and [AddressBook] *)

Lemma list_remove_length (l : list string) (x : string) :
  In x l -> S (List.length (Record.list_remove l x)) = List.length l.
Proof.
  induction l as [|y l IH]; simpl; [tauto|].
  destruct (y =? x)%string eqn:E; [reflexivity|].
  apply String.eqb_neq in E. intros [Hy|Hl]; [congruence|].
  simpl. now rewrite IH.
Qed.

Lemma list_remove_incl (l : list string) (x : string) :
  incl (Record.list_remove l x) l.
Proof.
  induction l as [|y l IH]; simpl; [apply incl_refl|].
  destruct (y =? x)%string.
  - apply incl_tl, incl_refl.
  - apply incl_cons; [now left|]. now apply incl_tl.
Qed.

(** X4: [Record.change] never touches the name of the record nor the
    phone that the record remembers from its construction.  When the old
    value is among the phones, the record has as many phones afterwards as
    before and the sanitized new value is one of them; when it is not, the
    record is returned as it was, with the not-found message. *)
Theorem record_change_keeps (self : Record.t) (old_p new_p : string) :
  Record.name (fst (Record.change self old_p new_p)) = Record.name self
  /\ Record.phone (fst (Record.change self old_p new_p)) = Record.phone self
  /\ List.length (Record.phones (fst (Record.change self old_p new_p)))
     = List.length (Record.phones self)
  /\ (In old_p (Record.phones self) ->
      snd (Record.change self old_p new_p) = None
      /\ In (Phone.sanitize_number new_p)
           (Record.phones (fst (Record.change self old_p new_p))))
  /\ (~ In old_p (Record.phones self) ->
      Record.change self old_p new_p
      = (self, Some ("Phone " ++ old_p ++ " was not found in your records"))).
Proof.
  unfold Record.change.
  destruct (find (fun phone => (phone =? old_p)%string) (Record.phones self))
    as [p|] eqn:Hfind.
  - apply find_some in Hfind as [Hin Heq]. apply String.eqb_eq in Heq. subst p.
    cbn [fst snd Record.set_phones Record.name Record.phone Record.phones].
    split; [reflexivity|]. split; [reflexivity|]. split; [|split].
    + rewrite length_app, Nat.add_comm. cbn. now apply list_remove_length.
    + intros _. split; [reflexivity|]. apply in_or_app. right. now left.
    + intros Hnot. contradiction.
  - cbn [fst snd].
    split; [reflexivity|]. split; [reflexivity|]. split; [reflexivity|].
    split; [|reflexivity].
    intros Hin. exfalso. now apply (find_none_not_in _ _ Hfind).
Qed.

Lemma record_change_keeps_witness :
  Record.change (Record.init "bob" (Some "5")) "6" "7"
  = (Record.init "bob" (Some "5"),
     Some "Phone 6 was not found in your records").
Proof.
  refine (proj2 (proj2 (proj2 (proj2
            (record_change_keeps (Record.init "bob" (Some "5")) "6" "7")))) _).
  intros [H|[]]. discriminate H.
Defined.

Lemma setitem_keys (b : AddressBook.t) (k : string) (r : Record.t) :
  map fst (AddressBook.setitem b k r)
  = if mem k (map fst b) then map fst b else (map fst b ++ [k])%list.
Proof.
  unfold mem. induction b as [|[k0 v0] b IH]; simpl; [reflexivity|].
  destruct (k0 =? k)%string eqn:E; simpl.
  - apply String.eqb_eq in E. now subst.
  - rewrite IH. now destruct (existsb _ (map fst b)).
Qed.

Lemma setitem_absent (b : AddressBook.t) (k : string) (r : Record.t) :
  AddressBook.get b k = None -> AddressBook.setitem b k r = (b ++ [(k, r)])%list.
Proof.
  induction b as [|[k0 v0] b IH]; simpl; [reflexivity|].
  destruct (k0 =? k)%string; [discriminate|].
  intros H. now rewrite IH.
Qed.

(** X5: after [add_record] the record is found under its name and every
    other name finds what it found before; a name that was already a key
    keeps its place in the order of the book, a new name goes to the
    end. *)
Theorem add_record_lookup (self : AddressBook.t) (record : Record.t) (k : string) :
  AddressBook.get (AddressBook.add_record self record) (Record.name record)
  = Some record
  /\ (k <> Record.name record ->
      AddressBook.get (AddressBook.add_record self record) k
      = AddressBook.get self k)
  /\ map fst (AddressBook.add_record self record)
     = if mem (Record.name record) (map fst self) then map fst self
       else (map fst self ++ [Record.name record])%list.
Proof.
  unfold AddressBook.add_record. split; [apply get_setitem_same|]. split.
  - intros Hk. now apply get_setitem_other.
  - apply setitem_keys.
Qed.

Lemma add_record_lookup_witness :
  AddressBook.get
    (AddressBook.add_record [("bob", Record.init "bob" (Some "5"))]
       (Record.init "alice" (Some "7"))) "bob"
  = Some (Record.init "bob" (Some "5")).
Proof.
  refine (proj1 (proj2 (add_record_lookup
            [("bob", Record.init "bob" (Some "5"))]
            (Record.init "alice" (Some "7")) "bob")) _).
  discriminate.
Defined.

(** ** More on [add] *)

Lemma join_snoc (sep x : string) (l : list string) :
  l <> [] -> join sep (l ++ [x]) = join sep l ++ sep ++ x.
Proof.
  induction l as [|y l IH]; [congruence|]. intros _.
  destruct l as [|z l].
  - reflexivity.
  - change (join sep ((y :: z :: l) ++ [x]))
      with (y ++ sep ++ join sep ((z :: l) ++ [x])).
    rewrite IH by discriminate.
    change (join sep (y :: z :: l)) with (y ++ sep ++ join sep (z :: l)).
    now rewrite !append_assoc.
Qed.

Lemma absent_from_text (b : AddressBook.t) (name : string) :
  keys_match b ->
  contains (AddressBook.show_all_records b) name = false ->
  AddressBook.get b name = None.
Proof.
  intros Hkm Hc. destruct (AddressBook.get b name) as [r|] eqn:Hget;
    [|reflexivity].
  pose proof (keys_match_get _ _ _ Hkm Hget) as Hname.
  apply get_In in Hget.
  pose proof (show_all_records_contains _ _ _ Hget) as H.
  rewrite Hname in H. congruence.
Qed.

(** X6: in a book whose keys are the names of its records, [add] with a
    name that does not occur in the text of the whole book and a phone
    that is numeric once sanitized asks nothing: it puts a new record with
    the sanitized phone at the end of the book and answers with the
    confirmation.  [phone] then shows the name with that phone, and
    [show_all] shows it as the last line (the only line when the book was
    empty). *)
Theorem add_new_contact (w : World) (name ph : string) :
  keys_match (ADDRESSBOOK w) ->
  contains (AddressBook.show_all_records (ADDRESSBOOK w)) name = false ->
  isnumeric (Phone.sanitize_number ph) = true ->
  let w' := {| ADDRESSBOOK :=
                 (ADDRESSBOOK w
                  ++ [(name, Record.init name (Some (Phone.sanitize_number ph)))])%list;
               stdin := stdin w; stdout := stdout w |} in
  let line := name ++ " : " ++ Phone.sanitize_number ph in
  add [name; ph] w
  = (w', Return ("You just added contact " ++ dquote ++ name ++ dquote
                 ++ " with phone " ++ dquote ++ Phone.sanitize_number ph
                 ++ dquote ++ " to your list of contacts"))
  /\ phone [name] w' = (w', Return line)
  /\ show_all [] w'
     = (w', Return (match ADDRESSBOOK w with
                    | [] => line
                    | _ :: _ =>
                        AddressBook.show_all_records (ADDRESSBOOK w) ++ nl ++ line
                    end)).
Proof.
  intros Hkm Hc Hnum w' line.
  pose proof (absent_from_text _ _ Hkm Hc) as Hget.
  assert (Hadd : ADDRESSBOOK w' = AddressBook.add_record (ADDRESSBOOK w)
                    (Record.init name (Some (Phone.sanitize_number ph)))).
  { unfold AddressBook.add_record. cbn [Record.name Record.init].
    now rewrite setitem_absent. }
  split; [|split].
  - unfold add, error_handler, add_func, bind, item, ret, get_book, put_book,
      Name.init, Phone.init. cbn [nth_error]. rewrite Hc. cbn [fst snd].
    rewrite Hnum, Hget. cbn [negb ADDRESSBOOK stdin stdout].
    unfold w'. now rewrite <- Hadd.
  - rewrite phone_shows. unfold AddressBook.show_one_record.
    rewrite Hadd. unfold AddressBook.add_record.
    cbn [Record.name Record.init]. rewrite get_setitem_same.
    now rewrite render_one.
  - unfold show_all, error_handler, show_all_func, bind, get_book, ret.
    cbn [ADDRESSBOOK w']. destruct (ADDRESSBOOK w) as [|kv b] eqn:Hb.
    + reflexivity.
    + unfold AddressBook.show_all_records at 1.
      change ((kv :: b) ++ [(name, Record.init name (Some (Phone.sanitize_number ph)))])%list
        with (kv :: (b ++ [(name, Record.init name (Some (Phone.sanitize_number ph)))]))%list.
      cbv iota beta.
      change (kv :: (b ++ [(name, Record.init name (Some (Phone.sanitize_number ph)))]))%list
        with ((kv :: b) ++ [(name, Record.init name (Some (Phone.sanitize_number ph)))])%list.
      rewrite map_app. cbn [map snd].
      rewrite join_snoc by discriminate. rewrite render_one. reflexivity.
Qed.

Lemma add_new_contact_witness :
  add ["Alice"; "123-456-7890"] (initial [])
  = ({| ADDRESSBOOK := [("Alice", Record.init "Alice" (Some "1234567890"))];
        stdin := []; stdout := [] |},
     Return ("You just added contact " ++ dquote ++ "Alice" ++ dquote
             ++ " with phone " ++ dquote ++ "1234567890"
             ++ dquote ++ " to your list of contacts")).
Proof.
  exact (proj1 (add_new_contact (initial []) "Alice" "123-456-7890"
                  (Forall_nil _) eq_refl eq_refl)).
Defined.

Lemma add_loop_rewrite_none (book : AddressBook.t) (rest out : list string)
  (name : string) :
  add_loop ("1" :: rest) name None
    {| ADDRESSBOOK := book; stdin := "1" :: rest; stdout := out |}
  = ({| ADDRESSBOOK := book; stdin := rest;
        stdout := (out ++ [ASK_REWRITE])%list |}, Raise AttributeError).
Proof. reflexivity. Qed.

(** X7: the question of [add] is asked for every name that occurs
    anywhere in the text of the book, also in the message of the empty
    book.  When no record is stored under the name and the answer is "1",
    [remove_record] is called on [None]: the call ends with an
    [AttributeError], which [error_handler] does not catch, and the book
    is left as it was. *)
Theorem add_rewrite_without_record (w : World) (name ph : string)
  (junk rest : list string) :
  AddressBook.get (ADDRESSBOOK w) name = None ->
  contains (AddressBook.show_all_records (ADDRESSBOOK w)) name = true ->
  Forall (fun l => l <> "1" /\ l <> "2") junk ->
  stdin w = (junk ++ "1" :: rest)%list ->
  snd (add [name; ph] w) = Raise AttributeError
  /\ ADDRESSBOOK (fst (add [name; ph] w)) = ADDRESSBOOK w
  /\ stdin (fst (add [name; ph] w)) = rest.
Proof.
  intros Hget Hc Hjunk Hin. destruct w as [book ins out].
  cbn [ADDRESSBOOK stdin] in *. subst ins.
  unfold add, error_handler, add_func, bind, item, ret, get_book, Name.init.
  cbn [nth_error ADDRESSBOOK stdin]. rewrite Hc, Hget. cbn [stdin].
  destruct (add_loop_skip junk "1" rest book out name None Hjunk) as [out' ->].
  rewrite add_loop_rewrite_none. now cbn.
Qed.

Lemma add_rewrite_without_record_witness :
  snd (add ["book"; "123"] (initial ["1"])) = Raise AttributeError.
Proof.
  exact (proj1 (add_rewrite_without_record (initial ["1"]) "book" "123" [] []
                  eq_refl eq_refl (Forall_nil _) eq_refl)).
Defined.

(** X8: [add] checks the phone only after the question has been
    answered.  For a contact that exists under its own name, the answer
    "1" followed by a phone that is not numeric removes the contact and
    adds nothing: the answer is the invalid-phone message and the name is
    no longer in the book. *)
Theorem add_rewrite_invalid_phone (w : World) (N ph : string) (r : Record.t)
  (junk rest : list string) :
  AddressBook.get (ADDRESSBOOK w) N = Some r ->
  Record.name r = N ->
  isnumeric (Phone.sanitize_number ph) = false ->
  Forall (fun l => l <> "1" /\ l <> "2") junk ->
  stdin w = (junk ++ "1" :: rest)%list ->
  snd (add [N; ph] w) = Return "Phone number must include digits only"
  /\ ADDRESSBOOK (fst (add [N; ph] w)) = AddressBook.pop (ADDRESSBOOK w) N
  /\ AddressBook.get (ADDRESSBOOK (fst (add [N; ph] w))) N = None.
Proof.
  intros Hget Hname Hnum Hjunk Hin.
  assert (Hc : contains (AddressBook.show_all_records (ADDRESSBOOK w)) N = true).
  { rewrite <- Hname. apply (show_all_records_contains _ N). now apply get_In. }
  destruct w as [book ins out]. cbn [ADDRESSBOOK stdin] in *. subst ins.
  unfold add, error_handler, add_func, bind, item, ret, get_book, Name.init,
    Phone.init.
  cbn [nth_error ADDRESSBOOK stdin]. rewrite Hc, Hget. cbn [stdin].
  destruct (add_loop_skip junk "1" rest book out N (Some r) Hjunk) as [out' ->].
  rewrite add_loop_rewrite, Hname. cbn [fst snd]. rewrite Hnum.
  cbn [negb raise fst snd ADDRESSBOOK].
  repeat split. apply get_pop_same.
Qed.

Lemma add_rewrite_invalid_phone_witness :
  ADDRESSBOOK (fst (add ["bob"; "12a"]
                      {| ADDRESSBOOK := [("bob", Record.init "bob" (Some "5"))];
                         stdin := ["1"]; stdout := [] |}))
  = [].
Proof.
  exact (proj1 (proj2 (add_rewrite_invalid_phone
    {| ADDRESSBOOK := [("bob", Record.init "bob" (Some "5"))];
       stdin := ["1"]; stdout := [] |}
    "bob" "12a" (Record.init "bob" (Some "5")) [] []
    eq_refl eq_refl eq_refl (Forall_nil _) eq_refl))).
Defined.

(** ** Errors of the handlers *)

(** X9: a handler that is given too few arguments ([add] fewer than two,
    [change] fewer than three, [phone] and [delete_contact] none) answers
    with the missing-argument message and changes nothing; [add] does not
    even ask its question. *)
Theorem too_few_arguments (w : World) (args : list string) :
  (List.length args < 2 ->
   add args w = (w, Return "You didn't provide contact name or phone number"))
  /\ (List.length args < 3 ->
      change args w
      = (w, Return "You didn't provide contact name or phone number"))
  /\ (List.length args < 1 ->
      phone args w
      = (w, Return "You didn't provide contact name or phone number")
      /\ delete_contact args w
         = (w, Return "You didn't provide contact name or phone number")).
Proof.
  split; [|split].
  - destruct args as [|a0 [|a1 rest]]; cbn [List.length]; intros H;
      [reflexivity | reflexivity | lia].
  - destruct args as [|a0 [|a1 [|a2 rest]]]; cbn [List.length]; intros H;
      [reflexivity | reflexivity | reflexivity | lia].
  - destruct args; cbn [List.length]; intros H; [now split | lia].
Qed.

Lemma too_few_arguments_witness :
  change ["bob"; "123"] (initial ["x"])
  = (initial ["x"], Return "You didn't provide contact name or phone number").
Proof.
  refine (proj1 (proj2 (too_few_arguments (initial ["x"]) ["bob"; "123"])) _).
  cbn. lia.
Defined.

Lemma add_loop_raises (lines : list string) (name : string)
  (rec : option Record.t) (w : World) (e : exn) :
  snd (add_loop lines name rec w) = Raise e ->
  e = EOFError \/ e = AttributeError.
Proof.
  revert w. induction lines as [|l lines IH]; intros [book ins out].
  - cbn [add_loop]. unfold bind, input. cbn [stdin].
    destruct ins; cbn; intros [= <-]; now left.
  - cbn [add_loop]. unfold bind, input. cbn [stdin].
    destruct ins as [|line rest]; [cbn; intros [= <-]; now left|].
    destruct (line =? "2")%string; [cbn; discriminate|].
    destruct (line =? "1")%string.
    { destruct rec; cbn; [discriminate|]. intros [= <-]. now right. }
    cbn [print write]. apply IH.
Qed.

(** X10: [hello], [show_all], [change], [phone], [help] and
    [delete_contact] always answer with a string, whatever their
    arguments, and never read from or write to the console. *)
Theorem handler_outcomes (command : handler) (args : list string) (w : World) :
  In command [hello; show_all; change; phone; helper; delete_contact] ->
  (exists s, snd (command args w) = Return s)
  /\ stdin (fst (command args w)) = stdin w
  /\ stdout (fst (command args w)) = stdout w.
Proof.
  intros Hin. split; [|split].
  - destruct Hin as [<-|[<-|[<-|[<-|[<-|[<-|[]]]]]]].
    + now exists "How can I help you?".
    + now eexists.
    + destruct args as [|a0 [|a1 [|a2 rest]]]; [now eexists ..|].
      unfold change, error_handler, change_func, bind, item, ret, raise,
        get_book, put_book. cbn [nth_error].
      destruct (isnumeric a2); now eexists.
    + destruct args; now eexists.
    + now eexists.
    + destruct args as [|[|c a0] rest]; now eexists.
  - destruct Hin as [<-|[<-|[<-|[<-|[<-|[<-|[]]]]]]];
      unfold hello, show_all, change, phone, helper, delete_contact;
      rewrite error_handler_world; try reflexivity.
    + destruct args as [|a0 [|a1 [|a2 rest]]]; try reflexivity.
      unfold change_func, bind, item, ret, raise, get_book, put_book.
      cbn [nth_error]. now destruct (isnumeric a2).
    + now destruct args.
    + now destruct args as [|[|c a0] rest].
  - destruct Hin as [<-|[<-|[<-|[<-|[<-|[<-|[]]]]]]];
      unfold hello, show_all, change, phone, helper, delete_contact;
      rewrite error_handler_world; try reflexivity.
    + destruct args as [|a0 [|a1 [|a2 rest]]]; try reflexivity.
      unfold change_func, bind, item, ret, raise, get_book, put_book.
      cbn [nth_error]. now destruct (isnumeric a2).
    + now destruct args.
    + now destruct args as [|[|c a0] rest].
Qed.

Lemma handler_outcomes_witness :
  stdin (fst (delete_contact ["bob"] (initial ["x"; "y"]))) = ["x"; "y"].
Proof.
  refine (proj1 (proj2 (handler_outcomes delete_contact ["bob"]
                          (initial ["x"; "y"]) _))).
  cbn. tauto.
Defined.

(** X11: [add] answers with a string, or it ends with an [EOFError] (the
    input ended at its question) or with an [AttributeError] (the answer
    "1" for a name without a record); when it ends with an exception the
    book is left as it was. *)
Theorem add_outcomes (args : list string) (w : World) :
  (exists s, snd (add args w) = Return s)
  \/ ((snd (add args w) = Raise EOFError
       \/ snd (add args w) = Raise AttributeError)
      /\ ADDRESSBOOK (fst (add args w)) = ADDRESSBOOK w).
Proof.
  destruct args as [|a0 [|a1 rest]]; [left; now eexists ..|].
  unfold add, error_handler, add_func, bind, item, ret, get_book, Name.init.
  cbn [nth_error].
  destruct (contains _ a0).
  - pose proof (add_loop_raises (stdin w) a0
                  (AddressBook.get (ADDRESSBOOK w) a0) w) as Hr.
    pose proof (add_loop_effect (stdin w) a0
                  (AddressBook.get (ADDRESSBOOK w) a0) w) as He.
    destruct (add_loop _ _ _ w) as [w1 [[n' r']|e]]; cbn [fst snd] in *.
    + left. destruct (isnumeric _); cbn [negb raise]; [|now eexists].
      destruct r'; now eexists.
    + right. destruct (Hr e eq_refl) as [-> | ->]; cbn [fst snd]; auto.
  - left. cbn [fst snd].
    destruct (isnumeric _); cbn [negb raise]; [|now eexists].
    destruct (AddressBook.get _ _); now eexists.
Qed.



(** ** The phones that are stored *)

Section StoredRecords.

Variable P : Record.t -> Prop.

Lemma book_all_pop (b : AddressBook.t) (k : string) :
  Forall (fun kv => P (snd kv)) b ->
  Forall (fun kv => P (snd kv)) (AddressBook.pop b k).
Proof.
  induction 1 as [|[k0 v0] b H Hb IH]; simpl; [constructor|].
  destruct (k0 =? k)%string; [assumption | now constructor].
Qed.

Lemma book_all_setitem (b : AddressBook.t) (k : string) (r : Record.t) :
  Forall (fun kv => P (snd kv)) b -> P r ->
  Forall (fun kv => P (snd kv)) (AddressBook.setitem b k r).
Proof.
  intros Hb Hr. induction Hb as [|[k0 v0] b H Hb IH]; simpl.
  - now repeat constructor.
  - destruct (k0 =? k)%string; now constructor.
Qed.

Lemma book_all_get (b : AddressBook.t) (k : string) (r : Record.t) :
  Forall (fun kv => P (snd kv)) b -> AddressBook.get b k = Some r -> P r.
Proof.
  intros Hb Hget. apply get_In in Hget. rewrite Forall_forall in Hb.
  exact (Hb _ Hget).
Qed.

End StoredRecords.

Lemma phones_ok_add_phone (r : Record.t) (p : string) :
  phones_ok r -> isnumeric p = true -> phones_ok (Record.add_phone r p).
Proof.
  intros [_ Hall] Hp. split; cbn.
  - destruct (Record.phones r); discriminate.
  - apply Forall_app. split; [assumption | now repeat constructor].
Qed.

Lemma phones_ok_change (r : Record.t) (old_p new_p : string) :
  phones_ok r -> isnumeric new_p = true ->
  phones_ok (fst (Record.change r old_p new_p)).
Proof.
  intros [Hne Hall] Hp. unfold Record.change.
  destruct (find _ _) as [p|]; cbn [fst]; [|now split].
  split; cbn [Record.phones Record.set_phones].
  - destruct (Record.list_remove _ _); discriminate.
  - apply Forall_app. split.
    + rewrite Forall_forall in *. intros x Hx.
      apply Hall. exact (list_remove_incl _ _ _ Hx).
    + repeat constructor. unfold Phone.init. now rewrite sanitize_numeric.
Qed.

Lemma add_func_phones (args : list string) (w : World) :
  Forall (fun kv => phones_ok (snd kv)) (ADDRESSBOOK w) ->
  Forall (fun kv => phones_ok (snd kv)) (ADDRESSBOOK (fst (add_func args w))).
Proof.
  intros Hb. destruct args as [|a0 [|a1 rest]]; [exact Hb ..|].
  unfold add_func, bind, item, ret, get_book, Name.init. cbn [nth_error].
  set (ph := Phone.init a1).
  destruct (contains (AddressBook.show_all_records (ADDRESSBOOK w)) a0).
  - pose proof (add_loop_effect (stdin w) a0
                  (AddressBook.get (ADDRESSBOOK w) a0) w) as Hloop.
    destruct (add_loop (stdin w) a0 (AddressBook.get (ADDRESSBOOK w) a0) w)
      as [w1 [[n' r']|e]]; cbn [fst snd].
    + destruct Hloop as [Hr' Hcase].
      assert (Hb1 : Forall (fun kv => phones_ok (snd kv)) (ADDRESSBOOK w1)).
      { destruct Hcase as [[-> _]|(r & _ & _ & ->)];
          [assumption | now apply book_all_pop]. }
      destruct (isnumeric ph) eqn:Hnum; cbn [negb]; [|exact Hb1].
      unfold put_book, AddressBook.add_record.
      destruct r' as [r'|]; cbn [fst ADDRESSBOOK Record.name Record.init].
      * apply book_all_setitem; [assumption|].
        apply phones_ok_add_phone; [|assumption].
        symmetry in Hr'. exact (book_all_get _ _ _ _ Hb1 Hr').
      * apply book_all_setitem; [assumption|].
        split; cbn; [discriminate | now repeat constructor].
    + now rewrite Hloop.
  - cbn [fst snd]. destruct (isnumeric ph) eqn:Hnum; cbn [negb]; [|exact Hb].
    unfold put_book, AddressBook.add_record.
    destruct (AddressBook.get (ADDRESSBOOK w) a0) as [r|] eqn:Hget;
      cbn [fst ADDRESSBOOK Record.name Record.init].
    * apply book_all_setitem; [assumption|].
      apply phones_ok_add_phone; [|assumption].
      exact (book_all_get _ _ _ _ Hb Hget).
    * apply book_all_setitem; [assumption|].
      split; cbn; [discriminate | now repeat constructor].
Qed.

Lemma handler_phones (command : handler) (args : list string) (w : World) :
  In command (map fst COMMANDS) ->
  Forall (fun kv => phones_ok (snd kv)) (ADDRESSBOOK w) ->
  Forall (fun kv => phones_ok (snd kv)) (ADDRESSBOOK (fst (command args w))).
Proof.
  cbn [COMMANDS map fst].
  intros [<-|[<-|[<-|[<-|[<-|[<-|[<-|[]]]]]]]] Hb;
    unfold add, hello, show_all, change, phone, helper, delete_contact;
    rewrite error_handler_world; try exact Hb.
  - now apply add_func_phones.
  - destruct args as [|a0 [|a1 [|a2 rest]]]; try exact Hb.
    unfold change_func, bind, item, ret, raise, get_book, put_book, Name.init.
    cbn [nth_error].
    destruct (isnumeric a2) eqn:Hnum; cbn [negb fst ADDRESSBOOK]; [|exact Hb].
    unfold AddressBook.change_record.
    destruct (AddressBook.get (ADDRESSBOOK w) a0) as [record|] eqn:Hget;
      [|exact Hb].
    apply book_all_setitem; [assumption|].
    apply phones_ok_change; [|assumption].
    exact (book_all_get _ _ _ _ Hb Hget).
  - now destruct args.
  - destruct args as [|[|c a0] rest]; try exact Hb.
    cbn. now apply book_all_pop.
Qed.

(** X12: in every book that the handlers can build from the empty one,
    every stored record holds at least one phone, and every phone it holds
    passes [isnumeric]: [add] and [change] check the value before they
    store it, and nothing takes the last phone of a record away. *)
Theorem stored_phones_numeric (b : AddressBook.t) (k : string) (r : Record.t) :
  reachable b ->
  AddressBook.get b k = Some r ->
  Record.phones r <> []
  /\ Forall (fun p => isnumeric p = true) (Record.phones r).
Proof.
  intros Hreach Hget.
  assert (Hb : Forall (fun kv => phones_ok (snd kv)) b).
  { clear Hget. induction Hreach as [|command args w Hin Hreach IH].
    - constructor.
    - now apply handler_phones. }
  exact (book_all_get _ _ _ _ Hb Hget).
Qed.

Lemma stored_phones_numeric_witness :
  Record.phones (Record.init "bob" (Some "5")) <> []
  /\ Forall (fun p => isnumeric p = true)
       (Record.phones (Record.init "bob" (Some "5"))).
Proof.
  refine (stored_phones_numeric
            (ADDRESSBOOK (fst (add ["bob"; "5"] (initial [])))) "bob"
            (Record.init "bob" (Some "5")) _ eq_refl).
  apply reachable_call; [now left | constructor].
Defined.

(** ** More on [command_parser] *)

Lemma prefix_comparable (line a b : string) :
  startswith line a = true -> startswith line b = true ->
  startswith a b = true \/ startswith b a = true.
Proof.
  revert line b. induction a as [|x a IH]; intros line b Ha Hb.
  - right. reflexivity.
  - destruct b as [|z b]; [left; reflexivity|].
    destruct line as [|y line]; [discriminate|].
    simpl in Ha, Hb.
    apply andb_true_iff in Ha as [Hx Ha]. apply andb_true_iff in Hb as [Hz Hb].
    apply Ascii.eqb_eq in Hx, Hz. subst x z.
    simpl. rewrite Ascii.eqb_refl. simpl. exact (IH _ _ Ha Hb).
Qed.

Lemma command_parser_items_unique (items : list (handler * string))
  (line : string) (command : handler) (key_word : string) :
  In (command, key_word) items ->
  startswith line key_word = true ->
  (forall c k, In (c, k) items -> startswith line k = true ->
               (c, k) = (command, key_word)) ->
  command_parser_items items line
  = Some (command, split (strip (replace line key_word "")) " ").
Proof.
  intros Hin Hkw Huniq. induction items as [|[c0 k0] items IH]; [destruct Hin|].
  simpl. destruct (startswith line k0) eqn:E.
  - assert (H : (c0, k0) = (command, key_word))
      by (apply Huniq; [now left | assumption]).
    now injection H as -> ->.
  - destruct Hin as [[= -> ->]|Hin]; [congruence|].
    apply IH; [assumption|]. intros c k Hck. apply Huniq. now right.
Qed.

Lemma COMMANDS_unique (line : string) (c1 c2 : handler) (k1 k2 : string) :
  In (c1, k1) COMMANDS -> In (c2, k2) COMMANDS ->
  startswith line k1 = true -> startswith line k2 = true ->
  (c1, k1) = (c2, k2).
Proof.
  intros H1 H2 S1 S2.
  pose proof (prefix_comparable line k1 k2 S1 S2) as Hcmp.
  unfold COMMANDS in H1, H2. cbn [In] in H1, H2.
  repeat (destruct H1 as [[= <- <-]|H1]; [|]); try contradiction;
    repeat (destruct H2 as [[= <- <-]|H2]; [|]); try contradiction;
    first [reflexivity | destruct Hcmp as [X|X]; discriminate X].
Qed.

(** X13: no keyword is a prefix of another, so at most one keyword is a
    prefix of a line: whichever registered keyword the line starts with,
    that keyword's handler is the one [command_parser] returns, and the
    order in which the keywords are tried makes no difference. *)
Theorem keyword_unique (line : string) (command : handler) (key_word : string) :
  In (command, key_word) COMMANDS ->
  startswith line key_word = true ->
  (forall c k, In (c, k) COMMANDS -> startswith line k = true ->
               (c, k) = (command, key_word))
  /\ command_parser line
     = Some (command, split (strip (replace line key_word "")) " ").
Proof.
  intros Hin Hkw.
  assert (Huniq : forall c k, In (c, k) COMMANDS -> startswith line k = true ->
                              (c, k) = (command, key_word)).
  { intros c k Hck Hk. exact (COMMANDS_unique line _ _ _ _ Hck Hin Hk Hkw). }
  split; [exact Huniq|].
  now apply command_parser_items_unique.
Qed.

Lemma keyword_unique_witness :
  command_parser "help me"
  = Some (helper, split (strip (replace "help me" "help" "")) " ").
Proof.
  refine (proj2 (keyword_unique "help me" helper "help" _ eq_refl)).
  cbn. tauto.
Defined.

Lemma split_not_nil (s : string) (sep : ascii) : split s sep <> [].
Proof.
  destruct s as [|c s]; simpl; [discriminate|].
  destruct (Ascii.eqb c sep); [discriminate|].
  destruct (split s sep); discriminate.
Qed.

(** Joining with the separator undoes [split]. *)
Lemma join_split (s : string) (sep : ascii) :
  join (String sep "") (split s sep) = s.
Proof.
  induction s as [|c s IH]; [reflexivity|].
  pose proof (split_not_nil s sep) as Hne.
  cbn [split]. destruct (Ascii.eqb c sep) eqn:E.
  - apply Ascii.eqb_eq in E. subst c.
    destruct (split s sep) as [|h t]; [congruence|].
    change (join (String sep "") ("" :: h :: t))
      with ("" ++ String sep "" ++ join (String sep "") (h :: t)).
    now rewrite IH.
  - destruct (split s sep) as [|h t]; [congruence|].
    destruct t as [|h' t].
    + simpl in *. now rewrite IH.
    + change (join (String sep "") (String c h :: h' :: t))
        with (String c (h ++ String sep "" ++ join (String sep "") (h' :: t))).
      change (join (String sep "") (h :: h' :: t))
        with (h ++ String sep "" ++ join (String sep "") (h' :: t)) in IH.
      now rewrite IH.
Qed.

Lemma split_no_sep (s : string) (sep : ascii) :
  Forall (fun a => occurs sep a = false) (split s sep).
Proof.
  induction s as [|c s IH]; simpl; [now repeat constructor|].
  destruct (Ascii.eqb c sep) eqn:E.
  - now constructor.
  - rewrite Ascii.eqb_sym in E.
    destruct (split s sep) as [|h t].
    + repeat constructor. simpl. now rewrite E.
    + inversion IH; subst. constructor; [|assumption].
      simpl. now rewrite E.
Qed.

Lemma split_head_empty (s : string) (sep : ascii) :
  hd "" (split s sep) = "" -> s = "" \/ exists s', s = String sep s'.
Proof.
  destruct s as [|c s]; [now left|]. simpl.
  destruct (Ascii.eqb c sep) eqn:E.
  - apply Ascii.eqb_eq in E. subst. intros _. right. now exists s.
  - destruct (split s sep); simpl; discriminate.
Qed.

Lemma command_parser_items_inv (items : list (handler * string))
  (line : string) (command : handler) (args : list string) :
  command_parser_items items line = Some (command, args) ->
  exists key_word,
    In (command, key_word) items /\ startswith line key_word = true
    /\ args = split (strip (replace line key_word "")) " ".
Proof.
  induction items as [|[c k] items IH]; simpl; [discriminate|].
  destruct (startswith line k) eqn:E.
  - intros [= <- <-]. exists k. repeat split; auto.
  - intros H. destruct (IH H) as (kw & Hin & Hs & Ha).
    exists kw. repeat split; auto.
Qed.

(** X14: when [command_parser] finds a command, the line starts with the
    keyword of that command, and the arguments, joined by single spaces,
    give back the line with every occurrence of the keyword deleted (as
    [replace] does) and then stripped; when the keyword occurs only at the
    front of the line, that is the stripped rest of the line behind the
    keyword.  So "add maddy 123" has the arguments "my" and "123".  There
    is always at least one argument, no argument holds a space, and the
    first argument is empty only when it is the only one. *)
Theorem parser_arguments (line : string) (command : handler)
  (args : list string) :
  command_parser line = Some (command, args) ->
  (exists key_word rest,
      In (command, key_word) COMMANDS
      /\ line = key_word ++ rest
      /\ join " " args = strip (replace line key_word "")
      /\ (contains rest key_word = false -> join " " args = strip rest))
  /\ args <> []
  /\ Forall (fun a => occurs " " a = false) args
  /\ (hd "" args = "" -> args = [""])
  /\ command_parser "add maddy 123" = Some (add, ["my"; "123"]).
Proof.
  intros H. apply command_parser_items_inv in H as (kw & Hin & Hs & ->).
  split; [|split; [apply split_not_nil|split; [apply split_no_sep|split]]].
  - destruct (startswith_inv _ _ Hs) as [rest ->].
    exists kw, rest. split; [assumption|]. split; [reflexivity|].
    split; [apply join_split|].
    intros Hrest. rewrite join_split, replace_prefix_only; auto.
    exact (COMMANDS_key_words _ _ Hin).
  - intros Hhd. apply split_head_empty in Hhd as [->|[s' Hs']]; [reflexivity|].
    exfalso.
    assert (Hclean : starts_clean (strip (replace line kw "")) = true)
      by (apply starts_clean_rstrip, lstrip_starts_clean).
    rewrite Hs' in Hclean. discriminate Hclean.
  - reflexivity.
Qed.

Lemma parser_arguments_witness :
  exists key_word rest,
    In (phone, key_word) COMMANDS
    /\ "phone  bob " = key_word ++ rest
    /\ join " " ["bob"] = strip (replace "phone  bob " key_word "")
    /\ (contains rest key_word = false -> join " " ["bob"] = strip rest).
Proof.
  exact (proj1 (parser_arguments "phone  bob " phone ["bob"] eq_refl)).
Defined.

(** ** The console *)

Lemma lower_char_idem (c : ascii) : lower_char (lower_char c) = lower_char c.
Proof. destruct c as [[] [] [] [] [] [] [] []]; reflexivity. Qed.

Lemma lower_idem (s : string) : lower (lower s) = lower s.
Proof.
  induction s as [|c s IH]; simpl; [reflexivity|].
  now rewrite lower_char_idem, IH.
Qed.

(** X15: the console does not distinguish upper and lower case: a round
    of the loop does the same on a line and on the line in lower case,
    names and all. *)
Theorem console_ignores_case (book : AddressBook.t) (line : string)
  (rest out : list string) :
  main_step {| ADDRESSBOOK := book; stdin := line :: rest; stdout := out |}
  = main_step {| ADDRESSBOOK := book; stdin := lower line :: rest;
                 stdout := out |}.
Proof. now rewrite !main_step_line, lower_idem. Qed.

(** ** How [main] ends *)

Lemma main_loop_more_fuel (fuel : nat) (w : World) (x : World * outcome unit) :
  main_loop fuel w = Some x -> main_loop (S fuel) w = Some x.
Proof.
  revert w. induction fuel as [|fuel IH]; intros w; [discriminate|].
  intros H. cbn [main_loop] in H.
  change (match main_step w with
          | (w', Return Running) => main_loop (S fuel) w'
          | (w', Return Terminated) => Some (w', Return tt)
          | (w', Raise e) => Some (w', Raise e)
          end = Some x).
  destruct (main_step w) as [w1 [[|]|e]]; auto.
Qed.

Lemma main_loop_fuel_le (fuel fuel' : nat) (w : World)
  (x : World * outcome unit) :
  fuel <= fuel' -> main_loop fuel w = Some x -> main_loop fuel' w = Some x.
Proof.
  induction 1 as [|fuel' Hle IH]; [auto|].
  intros H. apply main_loop_more_fuel. auto.
Qed.

(** X16: [main] always comes to an end.  One round more than there are
    lines of input is enough, and more rounds do not change the result:
    the final state and the way the program ends (by the [break] or by an
    exception) are the same for every larger bound. *)
Theorem main_terminates (fuel : nat) (w : World) :
  List.length (stdin w) < fuel ->
  exists w' r,
    main (S (List.length (stdin w))) w = Some (w', r)
    /\ main fuel w = Some (w', r).
Proof.
  intros Hlt. unfold main.
  destruct (main_loop_total (S (List.length (stdin w))) (fst (print BANNER w)))
    as (w' & r & H); [cbn; lia|].
  exists w', r. split; [exact H|].
  apply (main_loop_fuel_le (S (List.length (stdin w)))); [lia | exact H].
Qed.

Lemma main_terminates_witness :
  exists w' r,
    main 3 (initial ["hello"; "exit"]) = Some (w', r)
    /\ main 10 (initial ["hello"; "exit"]) = Some (w', r).
Proof.
  refine (main_terminates 10 (initial ["hello"; "exit"]) _).
  cbn. lia.
Defined.

Lemma add_loop_incl (lines : list string) (name : string)
  (rec : option Record.t) (w : World) :
  incl (stdin (fst (add_loop lines name rec w))) (stdin w).
Proof.
  revert w. induction lines as [|l lines IH]; intros [book ins out].
  - cbn [add_loop]. unfold bind, input. cbn [stdin].
    destruct ins; cbn; [apply incl_refl | apply incl_tl, incl_refl].
  - cbn [add_loop]. unfold bind, input. cbn [stdin].
    destruct ins as [|line rest]; [cbn; apply incl_refl|].
    destruct (line =? "2")%string; [cbn; apply incl_tl, incl_refl|].
    destruct (line =? "1")%string.
    { destruct rec; cbn; apply incl_tl, incl_refl. }
    cbn [print write]. apply incl_tl.
    exact (IH {| ADDRESSBOOK := book; stdin := rest;
                 stdout := ((out ++ [ASK_REWRITE])
                            ++ [("Please type '1' or '2' to continue"
                                 ++ nl)%string])%list |}).
Qed.

Lemma add_func_incl (args : list string) (w : World) :
  incl (stdin (fst (add_func args w))) (stdin w).
Proof.
  destruct args as [|a0 [|a1 rest]]; [apply incl_refl ..|].
  unfold add_func, bind, item, ret, get_book, Name.init. cbn [nth_error].
  destruct (contains _ a0).
  - pose proof (add_loop_incl (stdin w) a0
                  (AddressBook.get (ADDRESSBOOK w) a0) w) as H.
    destruct (add_loop _ _ _ w) as [w1 [[n' r']|e]]; cbn [fst snd] in *;
      [|assumption].
    destruct (isnumeric _); cbn [negb]; [|exact H].
    destruct r'; exact H.
  - cbn [fst snd]. destruct (isnumeric _); cbn [negb]; [|apply incl_refl].
    destruct (AddressBook.get _ _); apply incl_refl.
Qed.

Lemma handler_incl (command : handler) (args : list string) (w : World) :
  In command (map fst COMMANDS) ->
  incl (stdin (fst (command args w))) (stdin w).
Proof.
  cbn [COMMANDS map fst].
  intros [<-|[<-|[<-|[<-|[<-|[<-|[<-|[]]]]]]]];
    unfold add, hello, show_all, change, phone, helper, delete_contact;
    rewrite error_handler_world; try apply incl_refl.
  - apply add_func_incl.
  - destruct args as [|a0 [|a1 [|a2 rest]]]; try apply incl_refl.
    unfold change_func, bind, item, ret, raise, get_book, put_book.
    cbn [nth_error]. destruct (isnumeric a2); apply incl_refl.
  - destruct args; apply incl_refl.
  - destruct args as [|[|c a0] rest]; apply incl_refl.
Qed.

Lemma handler_raises (command : handler) (args : list string) (w : World)
  (e : exn) :
  In command (map fst COMMANDS) ->
  snd (command args w) = Raise e -> e = EOFError \/ e = AttributeError.
Proof.
  cbn [COMMANDS map fst].
  intros [<-|[<-|[<-|[<-|[<-|[<-|[<-|[]]]]]]]].
  - destruct args as [|a0 [|a1 rest]]; [discriminate ..|].
    unfold add, error_handler, add_func, bind, item, ret, get_book, Name.init.
    cbn [nth_error]. destruct (contains _ a0).
    + pose proof (add_loop_raises (stdin w) a0
                    (AddressBook.get (ADDRESSBOOK w) a0) w) as Hr.
      destruct (add_loop _ _ _ w) as [w1 [[n' r']|e']]; cbn [fst snd] in *.
      * destruct (isnumeric _); cbn [negb raise]; [|discriminate].
        destruct r'; discriminate.
      * specialize (Hr e' eq_refl).
        destruct Hr as [-> | ->]; cbn; intros [= <-]; auto.
    + cbn [fst snd]. destruct (isnumeric _); cbn [negb raise]; [|discriminate].
      destruct (AddressBook.get _ _); discriminate.
  - discriminate.
  - discriminate.
  - destruct args as [|a0 [|a1 [|a2 rest]]]; [discriminate ..|].
    unfold change, error_handler, change_func, bind, item, ret, raise,
      get_book, put_book. cbn [nth_error].
    destruct (isnumeric a2); discriminate.
  - destruct args; discriminate.
  - discriminate.
  - destruct args as [|[|c a0] rest]; discriminate.
Qed.

(** What a round of the loop can come to. *)
Lemma main_step_cases (w : World) :
  match main_step w with
  | (w', Return Terminated) =>
      (exists line, In line (stdin w) /\ mem (lower line) end_words = true)
      /\ exists out, stdout w' = (out ++ [("Goodbye and good luck" ++ nl)%string])%list
  | (w', Return Running) => incl (stdin w') (stdin w)
  | (w', Raise e) => e = EOFError \/ e = AttributeError
  end.
Proof.
  destruct w as [book [|line rest] out]; [now left|].
  rewrite main_step_line. cbv zeta.
  destruct (mem (lower line) end_words) eqn:Hmem.
  - split.
    + exists line. split; [now left | assumption].
    + now exists (out ++ [">>>"])%list.
  - destruct (command_parser (lower line)) as [[command data]|] eqn:Hparse.
    + apply command_parser_items_In in Hparse.
      pose proof (handler_incl command data
                    {| ADDRESSBOOK := book; stdin := rest;
                       stdout := (out ++ [">>>"])%list |} Hparse) as Hi.
      pose proof (handler_raises command data
                    {| ADDRESSBOOK := book; stdin := rest;
                       stdout := (out ++ [">>>"])%list |}) as Hr.
      destruct (command data _) as [w' [r|e]]; cbn [fst snd] in *.
      * now apply incl_tl.
      * now apply Hr.
    + cbn. apply incl_tl, incl_refl.
Qed.

Lemma main_loop_ends (fuel : nat) (w w' : World) (r : outcome unit) :
  main_loop fuel w = Some (w', r) ->
  (r = Return tt
   /\ (exists line, In line (stdin w) /\ mem (lower line) end_words = true)
   /\ exists out, stdout w' = (out ++ [("Goodbye and good luck" ++ nl)%string])%list)
  \/ r = Raise EOFError \/ r = Raise AttributeError.
Proof.
  revert w. induction fuel as [|fuel IH]; intros w; [discriminate|].
  cbn [main_loop]. pose proof (main_step_cases w) as H.
  destruct (main_step w) as [w1 [[|]|e]].
  - intros Hloop. destruct (IH _ Hloop) as [(Hr & (line & Hin & Hmem) & Hout)|Hexn].
    + left. split; [assumption|]. split; [|assumption].
      exists line. split; [now apply H | assumption].
    + now right.
  - intros [= <- <-]. left. now split.
  - intros [= <- <-]. right. destruct H as [-> | ->]; auto.
Qed.

(** X17: [main] ends normally only on an exit word: when it returns, one
    of the lines of the input is, in lower case, ".", "close", "bye" or
    "exit", and the farewell is the last thing written.  Otherwise it ends
    with an [EOFError] (the input ran out) or with the [AttributeError]
    that [add] lets through; no other exception leaves the loop. *)
Theorem main_ends (fuel : nat) (w w' : World) (r : outcome unit) :
  main fuel w = Some (w', r) ->
  (r = Return tt
   /\ (exists line, In line (stdin w)
                    /\ In (lower line) ["."; "close"; "bye"; "exit"])
   /\ exists out, stdout w' = (out ++ [("Goodbye and good luck" ++ nl)%string])%list)
  \/ r = Raise EOFError \/ r = Raise AttributeError.
Proof.
  unfold main. intros H.
  destruct (main_loop_ends _ _ _ _ H) as [(Hr & (line & Hin & Hmem) & Hout)|Hexn];
    [left | now right].
  split; [assumption|]. split; [|assumption].
  exists line. split; [exact Hin|]. now apply mem_In.
Qed.

Lemma main_ends_witness :
  (Return tt = Return tt
   /\ (exists line, In line (stdin (initial ["Exit"; "hello"]))
                    /\ In (lower line) ["."; "close"; "bye"; "exit"])
   /\ exists out,
       [(BANNER ++ nl)%string; ">>>"; ("Goodbye and good luck" ++ nl)%string]
       = (out ++ [("Goodbye and good luck" ++ nl)%string])%list)
  \/ Return tt = Raise EOFError
  \/ Return tt = Raise AttributeError.
Proof.
  exact (main_ends 5 (initial ["Exit"; "hello"])
           {| ADDRESSBOOK := []; stdin := ["hello"];
              stdout := [(BANNER ++ nl)%string; ">>>";
                         ("Goodbye and good luck" ++ nl)%string] |}
           (Return tt) eq_refl).
Defined.


(** ** The names under which records are stored *)

Lemma add_func_keys (args : list string) (w : World) (k : string) :
  In k (map fst (ADDRESSBOOK (fst (add_func args w)))) ->
  In k (map fst (ADDRESSBOOK w))
  \/ exists a0 rest, args = a0 :: rest /\ (k = a0 \/ k = a0 ++ "(1)").
Proof.
  destruct args as [|a0 [|a1 rest]]; [now left ..|].
  unfold add_func, bind, item, ret, get_book, Name.init. cbn [nth_error].
  set (ph := Phone.init a1).
  destruct (contains (AddressBook.show_all_records (ADDRESSBOOK w)) a0).
  - pose proof (add_loop_effect (stdin w) a0
                  (AddressBook.get (ADDRESSBOOK w) a0) w) as Hloop.
    destruct (add_loop (stdin w) a0 (AddressBook.get (ADDRESSBOOK w) a0) w)
      as [w1 [[n' r']|e]]; cbn [fst snd].
    + destruct Hloop as [_ Hcase].
      assert (Hb1 : forall x, In x (map fst (ADDRESSBOOK w1)) ->
                              In x (map fst (ADDRESSBOOK w))).
      { destruct Hcase as [[-> _]|(r & _ & _ & ->)]; [auto|].
        intros x. apply keys_pop. }
      assert (Hn' : n' = a0 \/ n' = a0 ++ "(1)").
      { destruct Hcase as [[_ ->]|(r & _ & -> & _)]; auto. }
      destruct (isnumeric ph); cbn [negb raise fst]; [|intros H; left; auto].
      unfold put_book, AddressBook.add_record.
      destruct r' as [r'|]; cbn [fst ADDRESSBOOK Record.name Record.init];
        intros H; apply keys_setitem in H as [H | ->]; auto;
        right; now exists a0, (a1 :: rest).
    + rewrite Hloop. now left.
  - cbn [fst snd]. destruct (isnumeric ph); cbn [negb raise fst]; [|now left].
    unfold put_book, AddressBook.add_record.
    destruct (AddressBook.get (ADDRESSBOOK w) a0);
      cbn [fst ADDRESSBOOK Record.name Record.init];
      intros H; apply keys_setitem in H as [H | ->]; auto;
      right; exists a0, (a1 :: rest); auto.
Qed.

Lemma get_some_key (b : AddressBook.t) (k : string) (r : Record.t) :
  AddressBook.get b k = Some r -> In k (map fst b).
Proof.
  intros H. apply get_In in H. apply in_map_iff. now exists (k, r).
Qed.

Lemma handler_new_keys (command : handler) (args : list string) (w : World)
  (k : string) :
  In command (map fst COMMANDS) ->
  In k (map fst (ADDRESSBOOK (fst (command args w)))) ->
  In k (map fst (ADDRESSBOOK w))
  \/ exists a0 rest, args = a0 :: rest /\ (k = a0 \/ k = a0 ++ "(1)").
Proof.
  cbn [COMMANDS map fst].
  intros [<-|[<-|[<-|[<-|[<-|[<-|[<-|[]]]]]]]];
    unfold add, hello, show_all, change, phone, helper, delete_contact;
    rewrite error_handler_world; try (now left).
  - apply add_func_keys.
  - destruct args as [|a0 [|a1 [|a2 rest]]]; try (now left).
    unfold change_func, bind, item, ret, raise, get_book, put_book, Name.init.
    cbn [nth_error].
    destruct (isnumeric a2); cbn [negb fst ADDRESSBOOK]; [|now left].
    unfold AddressBook.change_record.
    destruct (AddressBook.get (ADDRESSBOOK w) a0) as [record|] eqn:Hget;
      [|now left].
    intros H. left. apply keys_setitem in H as [H | ->]; [assumption|].
    exact (get_some_key _ _ _ Hget).
  - destruct args; now left.
  - destruct args as [|[|c a0] rest]; try (now left).
    cbn. intros H. left. eapply keys_pop. exact H.
Qed.

(** X18: a handler never puts a name into the book that it was not
    given: every key of the book after a call was a key before, or is the
    first argument of the call, or is that argument followed by "(1)". *)
Theorem handler_keys (command : handler) (args : list string) (w : World)
  (k : string) :
  In command (map fst COMMANDS) ->
  In k (map fst (ADDRESSBOOK (fst (command args w)))) ->
  In k (map fst (ADDRESSBOOK w))
  \/ exists a0 rest, args = a0 :: rest /\ (k = a0 \/ k = a0 ++ "(1)").
Proof. apply handler_new_keys. Qed.

Lemma handler_keys_witness :
  In "bob" (map fst (ADDRESSBOOK (initial [])))
  \/ exists a0 rest, ["bob"; "5"] = a0 :: rest /\ ("bob" = a0 \/ "bob" = a0 ++ "(1)").
Proof.
  refine (handler_keys add ["bob"; "5"] (initial []) "bob" _ _);
    cbn; tauto.
Defined.

Section LowerCase.

Lemma lower_cons (c : ascii) (s : string) :
  lower (String c s) = String c s <-> lower_char c = c /\ lower s = s.
Proof.
  simpl. split.
  - intros [= H1 H2]. now split.
  - intros [-> ->]. reflexivity.
Qed.

Lemma lower_lstrip (s : string) : lower s = s -> lower (lstrip s) = lstrip s.
Proof.
  induction s as [|c s IH]; [auto|].
  intros H. pose proof (proj1 (lower_cons c s) H) as [_ Hs].
  cbn [lstrip]. destruct (isspace c); auto.
Qed.

Lemma lower_rstrip (s : string) : lower s = s -> lower (rstrip s) = rstrip s.
Proof.
  induction s as [|c s IH]; [auto|].
  intros H. pose proof (proj1 (lower_cons c s) H) as [Hc Hs].
  specialize (IH Hs). cbn [rstrip]. destruct (rstrip s) as [|d r].
  - destruct (isspace c); [reflexivity|]. apply lower_cons. now split.
  - apply lower_cons. now split.
Qed.

Lemma lower_replace_from (old : string) (skip : nat) (s : string) :
  lower s = s -> lower (replace_from old "" skip s) = replace_from old "" skip s.
Proof.
  revert skip. induction s as [|c s IH]; intros skip H; [reflexivity|].
  pose proof (proj1 (lower_cons c s) H) as [Hc Hs].
  cbn [replace_from]. destruct skip as [|k]; [|auto].
  destruct (startswith (String c s) old).
  - cbn [append]. auto.
  - apply lower_cons. split; auto.
Qed.

Lemma lower_split (s : string) (sep : ascii) :
  lower s = s -> Forall (fun a => lower a = a) (split s sep).
Proof.
  induction s as [|c s IH]; intros H; [now repeat constructor|].
  pose proof (proj1 (lower_cons c s) H) as [Hc Hs].
  specialize (IH Hs). cbn [split]. destruct (Ascii.eqb c sep).
  - now constructor.
  - destruct (split s sep) as [|h t].
    + repeat constructor. apply lower_cons. now split.
    + inversion IH; subst. constructor; [|assumption].
      apply lower_cons. now split.
Qed.

Lemma lower_append (a b : string) : lower (a ++ b) = lower a ++ lower b.
Proof. induction a as [|c a IH]; simpl; [reflexivity | now rewrite IH]. Qed.

(** The arguments cut out of a lower-case line are in lower case. *)
Lemma parser_arguments_lower (line : string) (command : handler)
  (args : list string) :
  command_parser (lower line) = Some (command, args) ->
  In command (map fst COMMANDS) /\ Forall (fun a => lower a = a) args.
Proof.
  intros H. split; [exact (command_parser_items_In _ _ _ _ H)|].
  apply command_parser_items_inv in H as (kw & Hin & _ & ->).
  apply lower_split. unfold strip. apply lower_rstrip, lower_lstrip.
  pose proof (COMMANDS_key_words _ _ Hin) as Hne.
  destruct kw as [|c kw]; [congruence|].
  unfold replace. apply lower_replace_from, lower_idem.
Qed.

End LowerCase.

(** X19: whatever is typed, the book of a console session holds names in
    lower case only: the loop of [main] lower-cases the line before it is
    parsed, and the handlers store the names they are given, at most
    with "(1)" behind them. *)
Theorem session_names_lower (w : World) (k : string) :
  session_state w ->
  In k (map fst (ADDRESSBOOK w)) ->
  lower k = k.
Proof.
  intros Hs. revert k. induction Hs as [lines|w Hs IH]; intros k.
  - intros [].
  - destruct w as [book [|line rest] out]; [exact (IH k)|].
    rewrite main_step_line. cbv zeta.
    destruct (mem (lower line) end_words); [exact (IH k)|].
    destruct (command_parser (lower line)) as [[command data]|] eqn:Hparse;
      [|exact (IH k)].
    apply parser_arguments_lower in Hparse as [Hin Hlow].
    pose proof (handler_new_keys command data
                  {| ADDRESSBOOK := book; stdin := rest;
                     stdout := (out ++ [">>>"])%list |} k Hin) as Hk.
    assert (Hgoal : In k (map fst (ADDRESSBOOK
                       (fst (command data
                               {| ADDRESSBOOK := book; stdin := rest;
                                  stdout := (out ++ [">>>"])%list |})))) ->
                    lower k = k).
    { intros H. destruct (Hk H) as [Hold|(a0 & rest' & -> & Hcase)].
      - exact (IH k Hold).
      - inversion Hlow as [|? ? Ha0 _]; subst.
        destruct Hcase as [-> | ->]; [assumption|].
        rewrite lower_append, Ha0. reflexivity. }
    destruct (command data _) as [w' [r|e]]; exact Hgoal.
Qed.

Lemma session_names_lower_witness : lower "alice" = "alice".
Proof.
  refine (session_names_lower
            (fst (main_step (initial ["Add ALICE 123"]))) "alice"
            (session_round _ (session_start _)) _).
  cbn. tauto.
Defined.
